(** * OpMode_APRS: the APRS operating-mode controller of OpenRTX

    Shallow embedding of [openrtx/src/rtx/OpMode_APRS.cpp] and the
    properties of its specification.

    The controller is a C++ object with six fields, driven once per cycle
    by [update] on a shared [rtxStatus_t] record.  It talks to a handful
    of collaborators (platform, radio driver, audio-path arbiter, heap,
    APRS packet helpers) that live outside the file.  Their answers are
    the per-cycle [Inputs]; the commands sent to them are the [Event]s a
    cycle emits; the two pieces of collaborator state the properties talk
    about (which audio paths are held, which packets are allocated) are
    carried in the [World].

    The [PLATFORM_TTWRPLUS] volume helper [_setVolume] is compiled out on
    every other platform and touches none of the state below; it is not
    part of the embedding. *)

From Stdlib Require Import ZArith List Bool Lia DecimalString.
From stdpp Require Import base option numbers list strings gmap fin_maps.

Local Open Scope Z_scope.

(** ** Data model *)

(** [enum opstatus] of [rtx.h]. *)
Inductive opstatus : Set := OFF | RX | TX.

#[global] Instance opstatus_eq_dec : EqDecision opstatus.
Proof. solve_decision. Defined.

(** Audio endpoints and priorities named by the controller
    ([audio_path.h]), and the two indicator LEDs. *)
Inductive AudioSource : Set := SOURCE_RTX | SOURCE_MIC.
Inductive AudioSink : Set := SINK_SPK | SINK_RTX.
Inductive AudioPriority : Set := PRIO_RX | PRIO_TX.
Inductive led_t : Set := GREEN | RED.

#[global] Instance AudioSource_eq_dec : EqDecision AudioSource.
Proof. solve_decision. Defined.
#[global] Instance AudioSink_eq_dec : EqDecision AudioSink.
Proof. solve_decision. Defined.

(** Handles returned by the audio-path arbiter. *)
Definition pathId_t : Type := Z.

(** Heap addresses of packets; [None] plays the null pointer. *)
Definition loc : Type := positive.

(** Clock readings of [platform_getCurrentTime]; the controller only
    stores them. *)
Definition datetime_t : Type := Z.

(** One entry of a packet's address chain.  The chain is a singly linked
    list owned by its packet alone, so it is kept as a list value. *)
Record aprsAddress_t : Type := mkAddress {
  addr : string;
  ssid : Z
}.

(** A queued packet: address chain, payload, capture time and the two
    queue links. *)
Record aprsPacket_t : Type := mkPacket {
  addresses : list aprsAddress_t;
  info : string;
  ts : datetime_t;
  prev : option loc;
  next : option loc
}.

(** Modelled from the spec: the declaration of [rtxStatus_t] is in
    [rtx.h], outside the sources at hand.  These are the fields the
    controller reads or writes; the spec's data model gives a
    three-valued state, a squelch level, two boolean guards, two counters
    and the queue head. *)
Record rtxStatus_t : Type := mkStatus {
  opStatus : opstatus;
  sqlLevel : Z;
  rxToneEn : bool;
  txDisable : bool;
  aprsRecv : Z;
  aprsSaved : Z;
  aprsPkts : option loc
}.

(** The controller object. *)
Record OpMode_APRS : Type := mkOpMode {
  rfSqlOpen : bool;
  sqlOpen : bool;
  enterRx : bool;
  makePkts : bool;
  rxAudioPath : pathId_t;
  txAudioPath : pathId_t
}.

(** A route held at the arbiter. *)
Definition route : Type := (AudioSource * AudioSink)%type.

Definition rxRoute : route := (SOURCE_RTX, SINK_SPK).
Definition txRoute : route := (SOURCE_MIC, SINK_RTX).

(** Everything a cycle can read or change. [audio] is the arbiter's
    table of the paths currently granted to this controller. *)
Record World : Type := mkWorld {
  self : OpMode_APRS;
  status : rtxStatus_t;
  heap : gmap loc aprsPacket_t;
  audio : list (pathId_t * route)
}.

(** Commands sent to the collaborators, in the order they are issued. *)
Inductive Event : Type :=
| EvAudioRequest (src : AudioSource) (snk : AudioSink)
                 (prio : AudioPriority) (result : pathId_t)
| EvAudioRelease (id : pathId_t)
| EvRadioDisableRtx
| EvRadioEnableRx
| EvRadioEnableTx
| EvLedOn (l : led_t)
| EvLedOff (l : led_t)
| EvSleep (seconds milliseconds : Z).

(** What the collaborators answer during one call of [update], one field
    per call site. *)
Record Inputs : Type := mkInputs {
  in_time : nat -> datetime_t;   (* platform_getCurrentTime, k-th packet *)
  in_rssi : Z;                   (* rtx_getRssi *)
  in_digSql : bool;              (* radio_checkRxDigitalSquelch, audio gate *)
  in_digSqlLed : bool;           (* radio_checkRxDigitalSquelch, LED logic *)
  in_rxReq : pathId_t;           (* audioPath_request for the RX route *)
  in_txReq : pathId_t;           (* audioPath_request for the TX route *)
  in_pttEnter : bool;            (* platform_getPttStatus, first test *)
  in_pttExit : bool              (* platform_getPttStatus, second test *)
}.

(** ** Field updates *)

Definition with_self (f : OpMode_APRS -> OpMode_APRS) (w : World) : World :=
  mkWorld (f (self w)) (status w) (heap w) (audio w).
Definition with_status (f : rtxStatus_t -> rtxStatus_t) (w : World) : World :=
  mkWorld (self w) (f (status w)) (heap w) (audio w).
Definition with_heap (f : gmap loc aprsPacket_t -> gmap loc aprsPacket_t)
    (w : World) : World :=
  mkWorld (self w) (status w) (f (heap w)) (audio w).
Definition with_audio (f : list (pathId_t * route) -> list (pathId_t * route))
    (w : World) : World :=
  mkWorld (self w) (status w) (heap w) (f (audio w)).

Definition set_rfSqlOpen (b : bool) (o : OpMode_APRS) : OpMode_APRS :=
  mkOpMode b (sqlOpen o) (enterRx o) (makePkts o) (rxAudioPath o) (txAudioPath o).
Definition set_sqlOpen (b : bool) (o : OpMode_APRS) : OpMode_APRS :=
  mkOpMode (rfSqlOpen o) b (enterRx o) (makePkts o) (rxAudioPath o) (txAudioPath o).
Definition set_enterRx (b : bool) (o : OpMode_APRS) : OpMode_APRS :=
  mkOpMode (rfSqlOpen o) (sqlOpen o) b (makePkts o) (rxAudioPath o) (txAudioPath o).
Definition set_makePkts (b : bool) (o : OpMode_APRS) : OpMode_APRS :=
  mkOpMode (rfSqlOpen o) (sqlOpen o) (enterRx o) b (rxAudioPath o) (txAudioPath o).
Definition set_rxAudioPath (p : pathId_t) (o : OpMode_APRS) : OpMode_APRS :=
  mkOpMode (rfSqlOpen o) (sqlOpen o) (enterRx o) (makePkts o) p (txAudioPath o).
Definition set_txAudioPath (p : pathId_t) (o : OpMode_APRS) : OpMode_APRS :=
  mkOpMode (rfSqlOpen o) (sqlOpen o) (enterRx o) (makePkts o) (rxAudioPath o) p.

Definition set_opStatus (s : opstatus) (st : rtxStatus_t) : rtxStatus_t :=
  mkStatus s (sqlLevel st) (rxToneEn st) (txDisable st)
           (aprsRecv st) (aprsSaved st) (aprsPkts st).
Definition set_txDisable (b : bool) (st : rtxStatus_t) : rtxStatus_t :=
  mkStatus (opStatus st) (sqlLevel st) (rxToneEn st) b
           (aprsRecv st) (aprsSaved st) (aprsPkts st).
Definition set_aprsRecv (n : Z) (st : rtxStatus_t) : rtxStatus_t :=
  mkStatus (opStatus st) (sqlLevel st) (rxToneEn st) (txDisable st)
           n (aprsSaved st) (aprsPkts st).
Definition set_aprsSaved (n : Z) (st : rtxStatus_t) : rtxStatus_t :=
  mkStatus (opStatus st) (sqlLevel st) (rxToneEn st) (txDisable st)
           (aprsRecv st) n (aprsPkts st).
Definition set_aprsPkts (p : option loc) (st : rtxStatus_t) : rtxStatus_t :=
  mkStatus (opStatus st) (sqlLevel st) (rxToneEn st) (txDisable st)
           (aprsRecv st) (aprsSaved st) p.

(** ** The command monad

    A command reads and changes the world and emits events. *)

Definition Cmd (A : Type) : Type := World -> A * World * list Event.

Definition cmd_ret {A} (a : A) : Cmd A := fun w => (a, w, []).

Definition cmd_bind {A B} (c : Cmd A) (k : A -> Cmd B) : Cmd B :=
  fun w =>
    let '(a, w1, e1) := c w in
    let '(b, w2, e2) := k a w1 in
    (b, w2, e1 ++ e2).

Declare Scope cmd_scope.
Delimit Scope cmd_scope with cmd.
Bind Scope cmd_scope with Cmd.
Notation "x <- c ;; k" := (cmd_bind c (fun x => k))
  (at level 100, c at next level, right associativity) : cmd_scope.
Notation "c ;; k" := (cmd_bind c (fun _ => k))
  (at level 100, right associativity) : cmd_scope.
Local Open Scope cmd_scope.

Definition get : Cmd World := fun w => (w, w, []).
Definition modify (f : World -> World) : Cmd unit := fun w => (tt, f w, []).
Definition emit (e : Event) : Cmd unit := fun w => (tt, w, [e]).
Definition when (b : bool) (c : Cmd unit) : Cmd unit :=
  if b then c else cmd_ret tt.

(** The world and the events a command leaves behind. *)
Definition exec {A} (c : Cmd A) (w : World) : World := snd (fst (c w)).
Definition events {A} (c : Cmd A) (w : World) : list Event := snd (c w).

Definition this {A} (f : OpMode_APRS -> A) : Cmd A :=
  fun w => (f (self w), w, []).
Definition stat {A} (f : rtxStatus_t -> A) : Cmd A :=
  fun w => (f (status w), w, []).
Definition set_this (f : OpMode_APRS -> OpMode_APRS) : Cmd unit :=
  modify (with_self f).
Definition set_stat (f : rtxStatus_t -> rtxStatus_t) : Cmd unit :=
  modify (with_status f).

Fixpoint for_each {A} (xs : list A) (body : A -> Cmd unit) : Cmd unit :=
  match xs with
  | [] => cmd_ret tt
  | x :: rest => body x ;; for_each rest body
  end.

(** ** Collaborators *)

(** Modelled from the spec: the audio-path arbiter ([audio_path.h]) is a
    collaborator outside the sources at hand.  Its contract is
    [request(source, sink, priority) -> handle-or-failure] and
    [release(handle)], a result that is not positive meaning "not
    granted".  The answer to a request is an input of the cycle; a
    granted route enters the table and a release removes the handle. *)
Definition audioPath_request (src : AudioSource) (snk : AudioSink)
    (prio : AudioPriority) (answer : pathId_t) : Cmd pathId_t :=
  fun w =>
    (answer,
     with_audio (fun t => if 0 <? answer then (answer, (src, snk)) :: t else t) w,
     [EvAudioRequest src snk prio answer]).

(** Modelled from the spec: [release(handle)] of the same arbiter; a
    handle that is not in the table is ignored. *)
Definition audioPath_release (id : pathId_t) : Cmd unit :=
  fun w =>
    (tt, with_audio (filter (fun p => p.1 <> id)) w, [EvAudioRelease id]).

Definition holds (r : route) (w : World) : bool :=
  existsb (fun p => bool_decide (p.2 = r)) (audio w).

(** The RX (receiver to speaker) and TX (microphone to transmitter)
    audio paths as the arbiter sees them. *)
Definition rxPathOpen (w : World) : bool := holds rxRoute w.
Definition txPathOpen (w : World) : bool := holds txRoute w.

Definition radio_disableRtx : Cmd unit := emit EvRadioDisableRtx.
Definition radio_enableRx : Cmd unit := emit EvRadioEnableRx.
Definition radio_enableTx : Cmd unit := emit EvRadioEnableTx.
Definition platform_ledOn (l : led_t) : Cmd unit := emit (EvLedOn l).
Definition platform_ledOff (l : led_t) : Cmd unit := emit (EvLedOff l).
Definition sleepFor (s ms : Z) : Cmd unit := emit (EvSleep s ms).

(** [malloc] of one packet: a fresh address, which the allocator may
    take from released memory.  Allocation failure is not modelled, the
    source does not test for it either. *)
Definition malloc_pkt (p : aprsPacket_t) : Cmd loc :=
  fun w =>
    let l := fresh (dom (heap w)) in
    (l, with_heap <[l := p]> w, []).

(** Modelled from the spec: [aprsPktsInsert] is defined in
    [protocols/APRS/packet.c], outside the sources at hand.  The spec
    documents insertion as append-to-front with both links maintained;
    inserting into an empty queue leaves both links of the node empty. *)
Definition aprsPktsInsert (head : option loc) (pkt : loc) : Cmd (option loc) :=
  fun w =>
    match head with
    | None => (Some pkt, w, [])
    | Some h =>
        let link_new p := mkPacket (addresses p) (info p) (ts p) None (Some h) in
        let link_old p := mkPacket (addresses p) (info p) (ts p) (Some pkt) (next p) in
        (Some pkt, with_heap (fun m => alter link_old h (alter link_new pkt m)) w, [])
    end.

(** ** Formatting helpers *)

Fixpoint string_take (n : nat) (s : string) : string :=
  match n, s with
  | S m, String c rest => String c (string_take m rest)
  | _, _ => EmptyString
  end.

(** [sniprintf(buf, size, prefix "%d", k)]: at most [size - 1] characters
    are stored before the terminator. *)
Definition sniprintf (size : nat) (prefix : string) (k : nat) : string :=
  string_take (size - 1) (prefix +:+ NilEmpty.string_of_uint (Nat.to_uint k)).

(** [strncpy(buf, s, n)] into a buffer whose byte [n] is the terminator. *)
Definition strncpy (s : string) (n : nat) : string := string_take n s.

(** ** Squelch arithmetic *)

(** Modelled from the spec: [rssi_t] is declared outside the sources at
    hand; the spec computes the threshold in integer arithmetic.  It is
    taken as a 16-bit signed integer, the conversion written out. *)
Definition to_rssi_t (z : Z) : Z := (z + 32768) mod 65536 - 32768.

(** [rssi_t squelch = -127 + (status->sqlLevel * 66) / 15;]
    The arithmetic is done in [int], division truncating. *)
Definition squelch_threshold (level : Z) : Z :=
  to_rssi_t (-127 + Z.quot (level * 66) 15).

(** ** The controller *)

(** [OpMode_APRS::OpMode_APRS()]: three fields are initialised, the
    others start with whatever the object's storage holds. *)
Definition construct (mk : bool) (rx tx : pathId_t) : OpMode_APRS :=
  mkOpMode false false true mk rx tx.

(** [OpMode_APRS::enable()] *)
Definition enable (w : World) : World :=
  with_self (fun o => set_makePkts true (set_enterRx true
              (set_sqlOpen false (set_rfSqlOpen false o)))) w.

(** Lines 85-128: the one-shot batch of test packets. *)
Definition testPacket (i : Inputs) (k : nat) : aprsPacket_t :=
  mkPacket
    [ mkAddress (sniprintf 6 "APRS" k) 0;
      mkAddress (strncpy "N2BP" 6) 7 ]
    (sniprintf 16 ":Test packet " k)
    (in_time i k)
    None None.

(** The body of the [for] loop: allocate packet [k] and put it on the
    queue. *)
Definition addTestPkt (i : Inputs) (k : nat) : Cmd unit :=
  pkt <- malloc_pkt (testPacket i k) ;;
  head <- stat aprsPkts ;;
  head' <- aprsPktsInsert head pkt ;;
  set_stat (set_aprsPkts head').

(** The body of [if (makePkts) { ... }]. *)
Definition batch (i : Inputs) : Cmd unit :=
  set_stat (set_aprsRecv 10) ;;
  set_stat (set_aprsSaved 10) ;;
  for_each (seq 0 10) (addTestPkt i) ;;
  set_this (set_makePkts false).

Definition makeTestPkts (i : Inputs) : Cmd unit :=
  mk <- this makePkts ;;
  when mk (batch i).

(** Lines 135-171: RX logic. *)
Definition rxLogic (i : Inputs) : Cmd unit :=
  st <- stat opStatus ;;
  if bool_decide (st = RX) then
    level <- stat sqlLevel ;;
    let squelch := squelch_threshold level in
    let rssi := in_rssi i in
    rf <- this rfSqlOpen ;;
    when (negb rf && (squelch + 1 <? rssi)) (set_this (set_rfSqlOpen true)) ;;
    rf <- this rfSqlOpen ;;
    when (rf && (rssi <? squelch - 1)) (set_this (set_rfSqlOpen false)) ;;
    tone <- stat rxToneEn ;;
    rf <- this rfSqlOpen ;;
    let rfSql := negb tone && rf in
    let toneSql := tone && in_digSql i in
    sq <- this sqlOpen ;;
    when (negb sq && (rfSql || toneSql))
      (p <- audioPath_request SOURCE_RTX SINK_SPK PRIO_RX (in_rxReq i) ;;
       set_this (set_rxAudioPath p) ;;
       when (0 <? p) (set_this (set_sqlOpen true))) ;;
    sq <- this sqlOpen ;;
    when (sq && negb rfSql && negb toneSql)
      (p <- this rxAudioPath ;;
       audioPath_release p ;;
       set_this (set_sqlOpen false))
  else
    enter <- this enterRx ;;
    when (bool_decide (st = OFF) && enter)
      (radio_disableRtx ;;
       radio_enableRx ;;
       set_stat (set_opStatus RX) ;;
       set_this (set_enterRx false)).

(** Lines 173-183: entering TX. *)
Definition txEnter (i : Inputs) : Cmd unit :=
  st <- stat opStatus ;;
  txd <- stat txDisable ;;
  when (in_pttEnter i && negb (bool_decide (st = TX)) && negb txd)
    (p <- this rxAudioPath ;;
     audioPath_release p ;;
     radio_disableRtx ;;
     t <- audioPath_request SOURCE_MIC SINK_RTX PRIO_TX (in_txReq i) ;;
     set_this (set_txAudioPath t) ;;
     radio_enableTx ;;
     set_stat (set_opStatus TX)).

(** Lines 185-192: leaving TX. *)
Definition txExit (i : Inputs) : Cmd unit :=
  st <- stat opStatus ;;
  when (negb (in_pttExit i) && bool_decide (st = TX))
    (t <- this txAudioPath ;;
     audioPath_release t ;;
     radio_disableRtx ;;
     set_stat (set_opStatus OFF) ;;
     set_this (set_enterRx true) ;;
     set_this (set_sqlOpen false)).

(** Lines 194-220: LED control. *)
Definition ledLogic (i : Inputs) : Cmd unit :=
  st <- stat opStatus ;;
  match st with
  | RX =>
      if in_digSqlLed i then platform_ledOn GREEN ;; platform_ledOn RED
      else
        rf <- this rfSqlOpen ;;
        if rf then platform_ledOn GREEN ;; platform_ledOff RED
        else platform_ledOff GREEN ;; platform_ledOff RED
  | TX => platform_ledOff GREEN ;; platform_ledOn RED
  | OFF => platform_ledOff GREEN ;; platform_ledOff RED
  end.

(** [OpMode_APRS::update(status, newCfg)]; [newCfg] is ignored. *)
Definition update (i : Inputs) : Cmd unit :=
  makeTestPkts i ;;
  rxLogic i ;;
  txEnter i ;;
  txExit i ;;
  ledLogic i ;;
  sleepFor 0 30.

(** [OpMode_APRS::rxSquelchOpen()] *)
Definition rxSquelchOpen (w : World) : bool := sqlOpen (self w).

(** A run of update cycles, one [Inputs] per cycle. *)
Fixpoint run (cycles : list Inputs) (w : World) : World :=
  match cycles with
  | [] => w
  | i :: rest => run rest (exec (update i) w)
  end.

(** ** Teardown *)

(** What goes wrong when released memory is used. *)
Inductive fault : Type :=
| UseAfterFree (l : loc)   (* a field of a released packet is read *)
| InvalidFree (l : loc)    (* a packet that is not allocated is released *)
| LoopBound.               (* the traversal did not end within its bound *)

#[global] Instance fault_eq_dec : EqDecision fault.
Proof. solve_decision. Defined.

(** Modelled from the spec: [aprsPktFree] is defined in
    [protocols/APRS/packet.c], outside the sources at hand.  It releases
    one packet together with the address records and payload it owns. *)
Definition aprsPktFree (l : loc) (h : gmap loc aprsPacket_t)
    : fault + gmap loc aprsPacket_t :=
  match h !! l with
  | Some _ => inr (delete l h)
  | None => inl (InvalidFree l)
  end.

(** [pkt->next], a read of allocated memory. *)
Definition read_next (l : loc) (h : gmap loc aprsPacket_t)
    : fault + option loc :=
  match h !! l with
  | Some p => inr (next p)
  | None => inl (UseAfterFree l)
  end.

(** [for (pkt = head; pkt; pkt = pkt->next) aprsPktFree(pkt);]
    The body runs first, the step [pkt = pkt->next] after it.  A faulting
    run reports the heap at the fault. *)
Fixpoint freeLoop (bound : nat) (pkt : option loc) (h : gmap loc aprsPacket_t)
    : fault * gmap loc aprsPacket_t + gmap loc aprsPacket_t :=
  match pkt with
  | None => inr h
  | Some l =>
      match bound with
      | O => inl (LoopBound, h)
      | S bound' =>
          match aprsPktFree l h with
          | inl f => inl (f, h)
          | inr h1 =>
              match read_next l h1 with
              | inl f => inl (f, h1)
              | inr nxt => freeLoop bound' nxt h1
              end
          end
      end
  end.

(** Lines 70-78: the shutdown that follows the queue traversal. *)
Definition shutdown : Cmd unit :=
  platform_ledOff GREEN ;;
  platform_ledOff RED ;;
  rx <- this rxAudioPath ;;
  audioPath_release rx ;;
  tx <- this txAudioPath ;;
  audioPath_release tx ;;
  radio_disableRtx ;;
  set_this (set_rfSqlOpen false) ;;
  set_this (set_sqlOpen false) ;;
  set_this (set_enterRx false).

(** [OpMode_APRS::disable()].  [rtx_getCurrentStatus()] hands out a copy
    of the status record, and nothing is written to either the copy or
    the shared record.  Every iteration releases a live packet, so the
    size of the heap bounds the traversal. *)
Definition disable (w : World) : fault * World + World * list Event :=
  let status_copy := status w in
  match freeLoop (S (size (heap w))) (aprsPkts status_copy) (heap w) with
  | inl (f, h) => inl (f, with_heap (fun _ => h) w)
  | inr h =>
      let w1 := with_heap (fun _ => h) w in
      inr (exec shutdown w1, events shutdown w1)
  end.

(** ** Reference worlds *)

Definition status0 : rtxStatus_t := mkStatus OFF 4 false false 0 0 None.

(** A freshly constructed and enabled controller on an idle radio. *)
Definition world0 : World :=
  enable (mkWorld (construct false 0 0) status0 ∅ []).

Definition quiet : Inputs :=
  mkInputs (fun k => Z.of_nat k) (-127) false false 1 2 false false.

Definition with_ptt (b : bool) (i : Inputs) : Inputs :=
  mkInputs (in_time i) (in_rssi i) (in_digSql i) (in_digSqlLed i)
           (in_rxReq i) (in_txReq i) b b.
Definition with_rssi (r : Z) (i : Inputs) : Inputs :=
  mkInputs (in_time i) r (in_digSql i) (in_digSqlLed i)
           (in_rxReq i) (in_txReq i) (in_pttEnter i) (in_pttExit i).
Definition with_txReq (r : pathId_t) (i : Inputs) : Inputs :=
  mkInputs (in_time i) (in_rssi i) (in_digSql i) (in_digSqlLed i)
           (in_rxReq i) r (in_pttEnter i) (in_pttExit i).

(** A strong signal, push-to-talk pressed on it, and push-to-talk pressed
    while the arbiter refuses the TX route. *)
Definition loud : Inputs := with_rssi (-50) quiet.
Definition talk : Inputs := with_ptt true loud.
Definition denied : Inputs := with_txReq (-1) (with_ptt true quiet).

(** The idle radio after its first cycle: receiving, squelch closed. *)
Definition world_rx : World := exec (update quiet) world0.

(** Receiving with the squelch open and the RX audio path held. *)
Definition world_open : World := exec (update loud) world_rx.

(** Push-to-talk asserted at the first sample of a cycle and released at
    the second. *)
Definition pulse : Inputs :=
  mkInputs (in_time quiet) (in_rssi quiet) false false 1 2 true false.


(** A strong signal while the arbiter refuses the RX route. *)
Definition refused : Inputs :=
  mkInputs (in_time loud) (in_rssi loud) false false 0 2 false false.

(** ** Definitions used in the statements *)

Definition value {A} (c : Cmd A) (w : World) : A := fst (fst (c w)).

(** Everything in [update] after the test-packet batch. *)
Definition control (i : Inputs) : Cmd unit :=
  rxLogic i ;; txEnter i ;; txExit i ;; ledLogic i ;; sleepFor 0 30.

(** Two worlds that agree on all the control part reads. *)
Record same_control (w w' : World) : Prop := mkSameControl {
  sc_rfSqlOpen : rfSqlOpen (self w') = rfSqlOpen (self w);
  sc_sqlOpen : sqlOpen (self w') = sqlOpen (self w);
  sc_enterRx : enterRx (self w') = enterRx (self w);
  sc_rxAudioPath : rxAudioPath (self w') = rxAudioPath (self w);
  sc_txAudioPath : txAudioPath (self w') = txAudioPath (self w);
  sc_opStatus : opStatus (status w') = opStatus (status w);
  sc_sqlLevel : sqlLevel (status w') = sqlLevel (status w);
  sc_rxToneEn : rxToneEn (status w') = rxToneEn (status w);
  sc_txDisable : txDisable (status w') = txDisable (status w);
  sc_audio : audio w' = audio w
}.

(** The RF squelch flag after the two hysteresis tests. *)
Definition rfSquelch (threshold rssi : Z) (flag : bool) : bool :=
  if flag then negb (rssi <? threshold - 1) else (threshold + 1 <? rssi).

(** The effective squelch decision of a cycle. *)
Definition squelchDecision (tone digital rf : bool) : bool :=
  if tone then digital else rf.

(** The arbiter's table agrees with the controller's own bookkeeping:
    while receiving, the RX route is held under [rxAudioPath] exactly
    when [sqlOpen] is set; while transmitting, nothing but the TX route
    under [txAudioPath] can be held; when off, nothing is held and
    [sqlOpen] is clear. *)
Definition audio_consistent (w : World) : Prop :=
  match opStatus (status w) with
  | RX => audio w = if sqlOpen (self w)
                    then [(rxAudioPath (self w), rxRoute)] else []
  | TX => audio w = [] \/ audio w = [(txAudioPath (self w), txRoute)]
  | OFF => audio w = [] /\ sqlOpen (self w) = false
  end.

(** The push-to-talk signal as a cycle sees it: [update] samples it
    twice, once to enter TX and once to leave it. *)
Definition ptt_held (i : Inputs) : Prop :=
  in_pttEnter i = true /\ in_pttExit i = true.
Definition ptt_idle (i : Inputs) : Prop :=
  in_pttEnter i = false /\ in_pttExit i = false.

(** The four commands of the Enter-TX transition. *)
Definition enterTxEvents (rx : pathId_t) (answer : pathId_t) : list Event :=
  [EvAudioRelease rx; EvRadioDisableRtx;
   EvAudioRequest SOURCE_MIC SINK_RTX PRIO_TX answer; EvRadioEnableTx].

(** What the round trip is said to do, for a start state [w] and the
    inputs of three consecutive cycles. *)
Definition round_trip (w : World) (i1 i2 i3 : Inputs) : Prop :=
  let w1 := exec (update i1) w in
  let w2 := exec (update i2) w1 in
  let w3 := exec (update i3) w2 in
  opStatus (status w1) = RX /\
  opStatus (status w2) = TX /\
  opStatus (status w3) = OFF /\
  enterRx (self w3) = true /\
  rxSquelchOpen w3 = false.

(** What a packet carries, apart from its queue links. *)
Definition content (p : aprsPacket_t)
    : list aprsAddress_t * string * datetime_t :=
  (addresses p, info p, ts p).

(** The contents after allocating one packet per element of [ks]. *)
Fixpoint alloc_all (i : Inputs) (ks : list nat)
    (cm : gmap loc (list aprsAddress_t * string * datetime_t))
    : gmap loc (list aprsAddress_t * string * datetime_t) :=
  match ks with
  | [] => cm
  | k :: rest =>
      alloc_all i rest (<[fresh (dom cm) := content (testPacket i k)]> cm)
  end.

(** ** The volume helper

    [_setVolume] is compiled for [PLATFORM_TTWRPLUS] only, where [update]
    calls it between the test-packet batch and the RX logic.  It touches
    nothing but its own static variable and the baseband gain. *)

(** The one command [_setVolume] sends to the AT1846S driver. *)
Inductive GainCmd : Type :=
| SetRxAudioGain (analog digital : Z).

(** [static uint8_t oldVolume = 0xFF;] *)
Definition oldVolume0 : Z := 255.

(** [_setVolume()]: [volume] is the reading of
    [platform_getVolumeLevel()], [oldVolume] the static variable; the
    result is the new value of the static variable and the commands
    sent.  [volume / 16] is C division on a promoted [uint8_t]. *)
Definition _setVolume (volume oldVolume : Z) : Z * list GainCmd :=
  if volume =? oldVolume then (oldVolume, [])
  else (volume, [SetRxAudioGain (Z.quot volume 16) (Z.quot volume 16)]).

(** Successive calls, one knob reading per call. *)
Fixpoint setVolume_calls (readings : list Z) (oldVolume : Z)
    : Z * list GainCmd :=
  match readings with
  | [] => (oldVolume, [])
  | v :: rest =>
      let '(old1, cmds1) := _setVolume v oldVolume in
      let '(old2, cmds2) := setVolume_calls rest old1 in
      (old2, cmds1 ++ cmds2)
  end.

(** ** Runs and their commands *)

(** The commands of a run of cycles, in the order they are sent. *)
Fixpoint run_events (cycles : list Inputs) (w : World) : list Event :=
  match cycles with
  | [] => []
  | i :: rest => events (update i) w ++ run_events rest (exec (update i) w)
  end.

(** The commands that put the radio on the air. *)
Definition is_tx_command (e : Event) : bool :=
  match e with
  | EvRadioEnableTx => true
  | EvAudioRequest SOURCE_MIC _ _ _ => true
  | _ => false
  end.

(** The commands that touch the audio arbiter or the RF path. *)
Definition is_path_command (e : Event) : bool :=
  match e with
  | EvAudioRequest _ _ _ _ | EvAudioRelease _
  | EvRadioDisableRtx | EvRadioEnableRx | EvRadioEnableTx => true
  | _ => false
  end.

(** The two LED commands for a state, the digital squelch reading and
    the RF squelch flag. *)
Definition ledEvents (s : opstatus) (digital rf : bool) : list Event :=
  match s with
  | RX => if digital then [EvLedOn GREEN; EvLedOn RED]
          else if rf then [EvLedOn GREEN; EvLedOff RED]
          else [EvLedOff GREEN; EvLedOff RED]
  | TX => [EvLedOff GREEN; EvLedOn RED]
  | OFF => [EvLedOff GREEN; EvLedOff RED]
  end.

(** The state a cycle would end in if it only ran the OFF to RX entry. *)
Definition afterEnterRx (s : opstatus) (enter : bool) : opstatus :=
  match s with
  | OFF => if enter then RX else OFF
  | _ => s
  end.

(** [%d] of a loop counter. *)
Definition decimal (k : nat) : string :=
  NilEmpty.string_of_uint (Nat.to_uint k).

(** * Properties *)

(** ** Running commands *)

Lemma exec_bind {A B} (c : Cmd A) (k : A -> Cmd B) w :
  exec (cmd_bind c k) w = exec (k (value c w)) (exec c w).
Proof.
  unfold exec, value, cmd_bind. destruct (c w) as [[a w1] e1]. cbn [fst snd].
  destruct (k a w1) as [[b w2] e2]. reflexivity.
Qed.

Lemma events_bind {A B} (c : Cmd A) (k : A -> Cmd B) w :
  events (cmd_bind c k) w = events c w ++ events (k (value c w)) (exec c w).
Proof.
  unfold events, exec, value, cmd_bind. destruct (c w) as [[a w1] e1].
  cbn [fst snd]. destruct (k a w1) as [[b w2] e2]. reflexivity.
Qed.

Lemma for_each_exec_inv {A} (P : World -> Prop) (xs : list A) body :
  (forall x w, P w -> P (exec (body x) w)) ->
  forall w, P w -> P (exec (for_each xs body) w).
Proof.
  intros Hbody. induction xs as [|x xs IH]; intros w Hw; simpl.
  - exact Hw.
  - rewrite exec_bind. apply IH, Hbody, Hw.
Qed.

Lemma for_each_events_nil {A} (xs : list A) body :
  (forall x w, events (body x) w = []) ->
  forall w, events (for_each xs body) w = [].
Proof.
  intros Hbody. induction xs as [|x xs IH]; intros w; simpl.
  - reflexivity.
  - rewrite events_bind, Hbody, IH. reflexivity.
Qed.

(** ** The control part of a cycle *)

Lemma update_control i : update i = (makeTestPkts i ;; control i).
Proof. reflexivity. Qed.

Lemma same_control_refl w : same_control w w.
Proof. by constructor. Qed.

Lemma same_control_trans w1 w2 w3 :
  same_control w1 w2 -> same_control w2 w3 -> same_control w1 w3.
Proof. intros [] []. constructor; congruence. Qed.

Lemma addTestPkt_same_control i k w :
  same_control w (exec (addTestPkt i k) w).
Proof.
  unfold addTestPkt, exec, cmd_bind, malloc_pkt, stat, aprsPktsInsert,
    set_stat, modify.
  cbn [fst snd with_heap with_status status self audio heap].
  destruct (aprsPkts (status w)); constructor; reflexivity.
Qed.

Lemma addTestPkt_events i k w : events (addTestPkt i k) w = [].
Proof.
  unfold addTestPkt, events, cmd_bind, malloc_pkt, stat, aprsPktsInsert,
    set_stat, modify.
  cbn [fst snd with_heap with_status status self audio heap].
  destruct (aprsPkts (status w)); reflexivity.
Qed.

Lemma makeTestPkts_exec i w :
  exec (makeTestPkts i) w = if makePkts (self w) then exec (batch i) w else w.
Proof.
  unfold makeTestPkts. rewrite exec_bind.
  unfold this, value, exec at 2. cbn [fst snd].
  destruct (makePkts (self w)); reflexivity.
Qed.

Lemma makeTestPkts_events_batch i w :
  events (makeTestPkts i) w =
  if makePkts (self w) then events (batch i) w else [].
Proof.
  unfold makeTestPkts. rewrite events_bind.
  unfold this, value, exec, events at 1. cbn [fst snd app].
  destruct (makePkts (self w)); reflexivity.
Qed.

Lemma set_stat_aprs_same_control f w :
  (forall st, opStatus (f st) = opStatus st /\ sqlLevel (f st) = sqlLevel st /\
              rxToneEn (f st) = rxToneEn st /\ txDisable (f st) = txDisable st) ->
  same_control w (exec (set_stat f) w).
Proof.
  intros Hf. destruct (Hf (status w)) as (? & ? & ? & ?).
  constructor; try reflexivity; assumption.
Qed.

Lemma batch_same_control i w : same_control w (exec (batch i) w).
Proof.
  unfold batch. do 3 rewrite exec_bind.
  generalize (value (set_stat (set_aprsRecv 10)) w)
             (value (set_stat (set_aprsSaved 10))
                    (exec (set_stat (set_aprsRecv 10)) w)).
  intros _ _.
  eapply same_control_trans;
    [apply (set_stat_aprs_same_control (set_aprsRecv 10)); by intros []|].
  generalize (exec (set_stat (set_aprsRecv 10)) w). intros w1.
  eapply same_control_trans;
    [apply (set_stat_aprs_same_control (set_aprsSaved 10)); by intros []|].
  generalize (exec (set_stat (set_aprsSaved 10)) w1). intros w2.
  apply (same_control_trans w2 (exec (for_each (seq 0 10) (addTestPkt i)) w2)).
  - apply (for_each_exec_inv (same_control w2)).
    + intros k w' Hw'. eapply same_control_trans; [exact Hw'|].
      apply addTestPkt_same_control.
    + apply same_control_refl.
  - generalize (exec (for_each (seq 0 10) (addTestPkt i)) w2). intros w3.
    constructor; reflexivity.
Qed.

Lemma batch_events i w : events (batch i) w = [].
Proof.
  unfold batch. do 3 rewrite events_bind.
  rewrite for_each_events_nil by apply addTestPkt_events.
  reflexivity.
Qed.

Lemma batch_makePkts i w : makePkts (self (exec (batch i) w)) = false.
Proof.
  unfold batch. do 3 rewrite exec_bind.
  generalize (exec (for_each (seq 0 10) (addTestPkt i))
                (exec (set_stat (set_aprsSaved 10))
                   (exec (set_stat (set_aprsRecv 10)) w))).
  reflexivity.
Qed.

(** The test-packet batch leaves the control state alone and sends no
    command. *)
Lemma makeTestPkts_same_control i w :
  same_control w (exec (makeTestPkts i) w).
Proof.
  rewrite makeTestPkts_exec. destruct (makePkts (self w)).
  - apply batch_same_control.
  - apply same_control_refl.
Qed.

Lemma makeTestPkts_events i w : events (makeTestPkts i) w = [].
Proof.
  rewrite makeTestPkts_events_batch. destruct (makePkts (self w)).
  - apply batch_events.
  - reflexivity.
Qed.

Lemma makeTestPkts_makePkts i w :
  makePkts (self (exec (makeTestPkts i) w)) = false.
Proof.
  rewrite makeTestPkts_exec. destruct (makePkts (self w)) eqn:E.
  - apply batch_makePkts.
  - exact E.
Qed.

Lemma update_exec i w :
  exec (update i) w = exec (control i) (exec (makeTestPkts i) w).
Proof. rewrite update_control. apply exec_bind. Qed.

Lemma update_events i w :
  events (update i) w = events (control i) (exec (makeTestPkts i) w).
Proof.
  rewrite update_control, events_bind, makeTestPkts_events. reflexivity.
Qed.

(** ** What each phase of the control part does *)

Ltac cmd_unfold :=
  unfold cmd_bind, when, this, stat, set_this, set_stat, modify,
    audioPath_request, audioPath_release, radio_disableRtx, radio_enableRx,
    radio_enableTx, platform_ledOn, platform_ledOff, sleepFor, emit, cmd_ret.

Ltac world_cbn :=
  cbn [self status heap audio with_self with_status with_audio with_heap
       rfSqlOpen sqlOpen enterRx makePkts rxAudioPath txAudioPath
       set_rfSqlOpen set_sqlOpen set_enterRx set_makePkts set_rxAudioPath
       set_txAudioPath opStatus sqlLevel rxToneEn txDisable aprsRecv aprsSaved
       aprsPkts set_opStatus set_aprsRecv set_aprsSaved set_aprsPkts
       in_time in_rssi in_digSql in_digSqlLed in_rxReq in_txReq in_pttEnter
       in_pttExit fst snd app negb andb orb].

Ltac ltb_lia :=
  repeat match goal with
  | H : (_ <? _) = true |- _ => apply Z.ltb_lt in H
  | H : (_ <? _) = false |- _ => apply Z.ltb_ge in H
  end; lia.

Ltac head_bool b :=
  lazymatch b with
  | negb ?x => head_bool x
  | andb ?x _ => head_bool x
  | orb ?x _ => head_bool x
  | _ => b
  end.

Ltac split_if :=
  match goal with
  | |- context [if ?b then _ else _] =>
      let c := head_bool b in destruct c eqn:?; world_cbn
  end.

Lemma rxLogic_run i w :
  rxLogic i w =
  match opStatus (status w) with
  | RX =>
      let rf := rfSquelch (squelch_threshold (sqlLevel (status w)))
                          (in_rssi i) (rfSqlOpen (self w)) in
      let open := squelchDecision (rxToneEn (status w)) (in_digSql i) rf in
      let o := self w in
      if negb (sqlOpen o) && open then
        (tt,
         mkWorld (mkOpMode rf (0 <? in_rxReq i) (enterRx o) (makePkts o)
                           (in_rxReq i) (txAudioPath o))
                 (status w) (heap w)
                 (if 0 <? in_rxReq i then (in_rxReq i, rxRoute) :: audio w
                  else audio w),
         [EvAudioRequest SOURCE_RTX SINK_SPK PRIO_RX (in_rxReq i)])
      else if sqlOpen o && negb open then
        (tt,
         mkWorld (mkOpMode rf false (enterRx o) (makePkts o)
                           (rxAudioPath o) (txAudioPath o))
                 (status w) (heap w)
                 (filter (fun p => p.1 <> rxAudioPath o) (audio w)),
         [EvAudioRelease (rxAudioPath o)])
      else
        (tt,
         mkWorld (mkOpMode rf (sqlOpen o) (enterRx o) (makePkts o)
                           (rxAudioPath o) (txAudioPath o))
                 (status w) (heap w) (audio w),
         [])
  | OFF =>
      if enterRx (self w) then
        (tt,
         mkWorld (set_enterRx false (self w)) (set_opStatus RX (status w))
                 (heap w) (audio w),
         [EvRadioDisableRtx; EvRadioEnableRx])
      else (tt, w, [])
  | TX => (tt, w, [])
  end.
Proof.
  unfold rxLogic. cmd_unfold. world_cbn.
  destruct (opStatus (status w)) eqn:Est; cbn [bool_decide decide_rel].
  - rewrite bool_decide_eq_false_2, bool_decide_eq_true_2 by done.
    world_cbn. destruct (enterRx (self w)); reflexivity.
  - rewrite bool_decide_eq_true_2 by done.
    destruct w as [[rf sq en mk rx tx] [st lvl tone txd nr ns pk] h a].
    destruct i as [tm rssi dsq dsql rxr txr p1 p2]. world_cbn.
    generalize (squelch_threshold lvl). intros thr.
    unfold rfSquelch, squelchDecision.
    destruct rf, sq, tone, dsq; world_cbn;
      repeat split_if; try reflexivity; exfalso; ltb_lia.
  - rewrite !bool_decide_eq_false_2 by done. reflexivity.
Qed.

Lemma txEnter_run i w :
  txEnter i w =
  if in_pttEnter i && negb (bool_decide (opStatus (status w) = TX))
     && negb (txDisable (status w))
  then
    (tt,
     mkWorld (set_txAudioPath (in_txReq i) (self w))
             (set_opStatus TX (status w))
             (heap w)
             ((if 0 <? in_txReq i then [(in_txReq i, txRoute)] else []) ++
              filter (fun p => p.1 <> rxAudioPath (self w)) (audio w)),
     [EvAudioRelease (rxAudioPath (self w)); EvRadioDisableRtx;
      EvAudioRequest SOURCE_MIC SINK_RTX PRIO_TX (in_txReq i);
      EvRadioEnableTx])
  else (tt, w, []).
Proof.
  unfold txEnter. cmd_unfold.
  destruct (in_pttEnter i && _ && _); [|reflexivity].
  destruct (0 <? in_txReq i); reflexivity.
Qed.

Lemma txExit_run i w :
  txExit i w =
  if negb (in_pttExit i) && bool_decide (opStatus (status w) = TX)
  then
    (tt,
     mkWorld (set_sqlOpen false (set_enterRx true (self w)))
             (set_opStatus OFF (status w))
             (heap w)
             (filter (fun p => p.1 <> txAudioPath (self w)) (audio w)),
     [EvAudioRelease (txAudioPath (self w)); EvRadioDisableRtx])
  else (tt, w, []).
Proof.
  unfold txExit. cmd_unfold.
  destruct (negb (in_pttExit i) && _); reflexivity.
Qed.

Lemma ledLogic_run i w :
  ledLogic i w =
  (tt, w,
   match opStatus (status w) with
   | RX => if in_digSqlLed i then [EvLedOn GREEN; EvLedOn RED]
           else if rfSqlOpen (self w) then [EvLedOn GREEN; EvLedOff RED]
           else [EvLedOff GREEN; EvLedOff RED]
   | TX => [EvLedOff GREEN; EvLedOn RED]
   | OFF => [EvLedOff GREEN; EvLedOff RED]
   end).
Proof.
  unfold ledLogic. cmd_unfold. world_cbn.
  destruct (opStatus (status w)); try reflexivity.
  destruct (in_digSqlLed i); [reflexivity|].
  destruct (rfSqlOpen (self w)); reflexivity.
Qed.

Lemma control_exec i w :
  exec (control i) w = exec (txExit i) (exec (txEnter i) (exec (rxLogic i) w)).
Proof.
  unfold control. do 4 rewrite exec_bind.
  unfold exec at 1 2. rewrite ledLogic_run. reflexivity.
Qed.

Lemma control_events i w :
  let w1 := exec (rxLogic i) w in
  let w2 := exec (txEnter i) w1 in
  let w3 := exec (txExit i) w2 in
  events (control i) w =
  events (rxLogic i) w ++ events (txEnter i) w1 ++ events (txExit i) w2 ++
  events (ledLogic i) w3 ++ [EvSleep 0 30].
Proof.
  unfold control. do 4 rewrite events_bind.
  replace (exec (ledLogic i) (exec (txExit i) (exec (txEnter i) (exec (rxLogic i) w))))
    with (exec (txExit i) (exec (txEnter i) (exec (rxLogic i) w)))
    by (unfold exec at 4; rewrite ledLogic_run; reflexivity).
  reflexivity.
Qed.

#[local] Arguments squelch_threshold : simpl never.
#[local] Arguments rxLogic : simpl never.
#[local] Arguments txEnter : simpl never.
#[local] Arguments txExit : simpl never.
#[local] Arguments ledLogic : simpl never.

Ltac destruct_world w :=
  let rf := fresh "rf" in let sq := fresh "sq" in let en := fresh "en" in
  let mk := fresh "mk" in let rx := fresh "rx" in let tx := fresh "tx" in
  let st := fresh "st" in let lvl := fresh "lvl" in let tone := fresh "tone" in
  let txd := fresh "txd" in let nr := fresh "nr" in let ns := fresh "ns" in
  let pk := fresh "pk" in let h := fresh "h" in let a := fresh "a" in
  destruct w as [[rf sq en mk rx tx] [st lvl tone txd nr ns pk] h a].

Ltac destruct_inputs i :=
  let tm := fresh "tm" in let rssi := fresh "rssi" in
  let dsq := fresh "dsq" in let dsql := fresh "dsql" in
  let rxr := fresh "rxr" in let txr := fresh "txr" in
  let p1 := fresh "p1" in let p2 := fresh "p2" in
  destruct i as [tm rssi dsq dsql rxr txr p1 p2].

(** Run the three state-changing phases on a world given by its fields,
    splitting on each test as it is reached. *)
Ltac decide_status :=
  repeat match goal with
  | |- context [bool_decide (?a = ?b)] =>
      first [ rewrite (bool_decide_eq_true_2 (a = b)) by reflexivity
            | rewrite (bool_decide_eq_false_2 (a = b)) by discriminate ]
  end.

Ltac run_phases :=
  unfold exec, events;
  rewrite ?rxLogic_run; cbn; repeat split_if; cbn;
  rewrite ?txEnter_run; cbn; decide_status; cbn; repeat split_if; cbn;
  rewrite ?txExit_run; cbn; decide_status; cbn; repeat split_if; cbn;
  rewrite ?ledLogic_run; cbn.

(** The control part reads nothing but the control state. *)
Lemma control_same_control i w w' :
  same_control w w' ->
  same_control (exec (control i) w) (exec (control i) w') /\
  events (control i) w' = events (control i) w.
Proof.
  intros [H1 H2 H3 H4 H5 H6 H7 H8 H9 H10].
  pose proof (control_events i w) as Ev. pose proof (control_events i w') as Ev'.
  cbv zeta in Ev, Ev'. rewrite Ev, Ev'. rewrite !control_exec. clear Ev Ev'.
  destruct_world w. destruct_world w'. destruct_inputs i.
  cbn in H1, H2, H3, H4, H5, H6, H7, H8, H9, H10. subst.
  unfold rfSquelch, squelchDecision.
  destruct st; run_phases; (split; [constructor|]; reflexivity).
Qed.

Lemma update_control_view i w :
  same_control (exec (control i) w) (exec (update i) w) /\
  events (update i) w = events (control i) w.
Proof.
  rewrite update_exec, update_events.
  apply control_same_control, makeTestPkts_same_control.
Qed.

(** ** Squelch threshold *)

Lemma to_rssi_t_small z : -32768 <= z < 32768 -> to_rssi_t z = z.
Proof. intros H. unfold to_rssi_t. rewrite Z.mod_small; lia. Qed.

(** For every level an 8-bit field can hold, the threshold is the plain
    integer formula: the conversion to [rssi_t] never wraps. *)
Lemma squelch_threshold_formula level :
  0 <= level <= 255 -> squelch_threshold level = -127 + (level * 66) / 15.
Proof.
  intros H. unfold squelch_threshold.
  rewrite Z.quot_div_nonneg by lia.
  apply to_rssi_t_small.
  assert (0 <= level * 66 / 15) by (apply Z.div_pos; lia).
  assert (level * 66 / 15 <= 255 * 66 / 15) by (apply Z.div_le_mono; lia).
  change (255 * 66 / 15) with 1122 in *. lia.
Qed.

(** C5. For every squelch level from 0 to 15 the threshold computed by
    [update] is [-127 + (level * 66) / 15] in integer arithmetic, it does
    not decrease when the level grows, and it lies in [-127, -61]. *)
Theorem C5_squelch_threshold_formula_monotone_bounded (level level' : Z) :
  0 <= level -> level <= level' -> level' <= 15 ->
  squelch_threshold level = -127 + (level * 66) / 15 /\
  squelch_threshold level <= squelch_threshold level' /\
  -127 <= squelch_threshold level <= -61.
Proof.
  intros H0 Hle H15.
  rewrite !squelch_threshold_formula by lia.
  assert (0 <= level * 66 / 15) by (apply Z.div_pos; lia).
  assert (level * 66 / 15 <= level' * 66 / 15) by (apply Z.div_le_mono; lia).
  assert (level' * 66 / 15 <= 15 * 66 / 15) by (apply Z.div_le_mono; lia).
  change (15 * 66 / 15) with 66 in *. lia.
Qed.

Lemma C5_squelch_threshold_witness :
  squelch_threshold 4 = -127 + (4 * 66) / 15 /\
  squelch_threshold 4 <= squelch_threshold 11 /\
  -127 <= squelch_threshold 4 <= -61.
Proof.
  apply (C5_squelch_threshold_formula_monotone_bounded 4 11); lia.
Defined.

(** ** Hysteresis of the RF squelch *)

Lemma control_rfSqlOpen i w :
  rfSqlOpen (self (exec (control i) w)) =
  match opStatus (status w) with
  | RX => rfSquelch (squelch_threshold (sqlLevel (status w))) (in_rssi i)
                    (rfSqlOpen (self w))
  | _ => rfSqlOpen (self w)
  end.
Proof.
  rewrite control_exec. destruct_world w. destruct_inputs i.
  destruct st; run_phases; reflexivity.
Qed.

Lemma update_rfSqlOpen i w :
  rfSqlOpen (self (exec (update i) w)) =
  match opStatus (status w) with
  | RX => rfSquelch (squelch_threshold (sqlLevel (status w))) (in_rssi i)
                    (rfSqlOpen (self w))
  | _ => rfSqlOpen (self w)
  end.
Proof.
  destruct (update_control_view i w) as [[-> _ _ _ _ _ _ _ _ _] _].
  apply control_rfSqlOpen.
Qed.

(** C4. In a cycle that starts in RX the RF-squelch flag goes from false
    to true only if the signal strength is above threshold + 1, from true
    to false only if it is below threshold - 1, and keeps its value for
    every strength strictly between threshold - 1 and threshold + 1. *)
Theorem C4_rf_squelch_hysteresis (i : Inputs) (w : World) :
  opStatus (status w) = RX ->
  let threshold := squelch_threshold (sqlLevel (status w)) in
  let before := rfSqlOpen (self w) in
  let after := rfSqlOpen (self (exec (update i) w)) in
  (before = false -> after = true -> threshold + 1 < in_rssi i) /\
  (before = true -> after = false -> in_rssi i < threshold - 1) /\
  (threshold - 1 < in_rssi i < threshold + 1 -> after = before).
Proof.
  intros Hrx threshold before after.
  assert (Hafter : after = rfSquelch threshold (in_rssi i) before).
  { unfold after. rewrite update_rfSqlOpen, Hrx. reflexivity. }
  rewrite Hafter. unfold rfSquelch.
  repeat split.
  - intros -> H. ltb_lia.
  - intros -> H. apply negb_false_iff in H. ltb_lia.
  - intros H. destruct before.
    + apply negb_true_iff, Z.ltb_ge. lia.
    + apply Z.ltb_ge. lia.
Qed.

Lemma C4_rf_squelch_hysteresis_witness :
  opStatus (status world_rx) = RX /\
  (rfSqlOpen (self world_rx) = false ->
   rfSqlOpen (self (exec (update loud) world_rx)) = true ->
   squelch_threshold (sqlLevel (status world_rx)) + 1 < in_rssi loud).
Proof.
  split; [vm_compute; reflexivity|].
  apply (C4_rf_squelch_hysteresis loud world_rx). vm_compute; reflexivity.
Defined.

(** ** The audio paths held by the controller *)

#[local] Arguments audio_consistent : simpl never.

Lemma audio_consistent_same_control w w' :
  same_control w w' -> audio_consistent w -> audio_consistent w'.
Proof.
  intros [H1 H2 H3 H4 H5 H6 H7 H8 H9 H10]. unfold audio_consistent.
  rewrite H2, H4, H5, H6, H10. tauto.
Qed.

Lemma control_audio_consistent i w :
  audio_consistent w -> audio_consistent (exec (control i) w).
Proof.
  rewrite control_exec. destruct_world w. destruct_inputs i.
  unfold audio_consistent at 1, rfSquelch, squelchDecision. cbn.
  destruct st; [intros [-> ->] | destruct sq; intros -> | intros [-> | ->]];
    run_phases; unfold audio_consistent; cbn;
    repeat case_decide; cbn; auto; congruence.
Qed.

Lemma update_audio_consistent i w :
  audio_consistent w -> audio_consistent (exec (update i) w).
Proof.
  intros H. destruct (update_control_view i w) as [Hsc _].
  eapply audio_consistent_same_control; [exact Hsc|].
  apply control_audio_consistent, H.
Qed.

Lemma run_audio_consistent cycles w :
  audio_consistent w -> audio_consistent (run cycles w).
Proof.
  revert w. induction cycles as [|i cycles IH]; intros w H; simpl.
  - exact H.
  - apply IH, update_audio_consistent, H.
Qed.

Lemma world0_audio_consistent : audio_consistent world0.
Proof. split; reflexivity. Qed.

Lemma audio_consistent_exclusive w :
  audio_consistent w ->
  rxPathOpen w && txPathOpen w = false /\
  (rxPathOpen w = true -> opStatus (status w) = RX) /\
  (txPathOpen w = true -> opStatus (status w) = TX).
Proof.
  unfold audio_consistent, rxPathOpen, txPathOpen, holds.
  destruct (opStatus (status w)).
  - intros [-> _]. cbn. repeat split; discriminate.
  - intros ->. destruct (sqlOpen (self w)); cbn;
      repeat split; intros; (reflexivity || discriminate).
  - intros [-> | ->]; cbn;
      repeat split; intros; (reflexivity || discriminate).
Qed.

(** Enabling the controller on an idle radio, with nothing held at the
    arbiter, gives a consistent state, whatever the configuration. *)
Lemma enable_audio_consistent w :
  opStatus (status w) = OFF -> audio w = [] -> audio_consistent (enable w).
Proof.
  intros Hst Ha. unfold audio_consistent, enable. cbn. rewrite Hst, Ha.
  split; reflexivity.
Qed.

(** The part of the stated invariant that does hold along every run
    from the enabled idle state: the two paths are never open together,
    and an open path goes with the matching state. *)
Lemma audio_paths_exclusive cycles :
  let w := run cycles world0 in
  rxPathOpen w && txPathOpen w = false /\
  (rxPathOpen w = true -> opStatus (status w) = RX) /\
  (txPathOpen w = true -> opStatus (status w) = TX).
Proof.
  apply audio_consistent_exclusive, run_audio_consistent,
    world0_audio_consistent.
Qed.

(** ** Push-to-talk *)

Lemma control_config i w :
  sqlLevel (status (exec (control i) w)) = sqlLevel (status w) /\
  rxToneEn (status (exec (control i) w)) = rxToneEn (status w) /\
  txDisable (status (exec (control i) w)) = txDisable (status w).
Proof.
  rewrite control_exec. destruct_world w. destruct_inputs i.
  unfold rfSquelch, squelchDecision.
  destruct st; run_phases; repeat split.
Qed.

Lemma update_config i w :
  sqlLevel (status (exec (update i) w)) = sqlLevel (status w) /\
  rxToneEn (status (exec (update i) w)) = rxToneEn (status w) /\
  txDisable (status (exec (update i) w)) = txDisable (status w).
Proof.
  destruct (update_control_view i w) as [[_ _ _ _ _ _ -> -> -> _] _].
  apply control_config.
Qed.

Lemma control_enter_tx i w :
  ptt_held i -> opStatus (status w) <> TX -> txDisable (status w) = false ->
  let w' := exec (control i) w in
  opStatus (status w') = TX /\
  sqlOpen (self w') = sqlOpen (self (exec (rxLogic i) w)) /\
  events (control i) w =
    events (rxLogic i) w ++
    enterTxEvents (rxAudioPath (self w')) (in_txReq i) ++
    [EvLedOff GREEN; EvLedOn RED; EvSleep 0 30].
Proof.
  intros [Hp1 Hp2] Hst Htxd. cbv zeta.
  pose proof (control_events i w) as Ev. cbv zeta in Ev. rewrite Ev. clear Ev.
  rewrite control_exec. destruct_world w. destruct_inputs i.
  cbn in Hp1, Hp2, Hst, Htxd. subst. unfold rfSquelch, squelchDecision.
  destruct st; [| |congruence]; run_phases; repeat split.
Qed.

(** C1. In every cycle in which push-to-talk is asserted, the state at
    the start is not TX and transmit is not disabled, the controller
    releases the RX audio handle, deactivates the RF path, requests the
    TX audio path and activates RF transmit, in this order, and ends the
    cycle in TX, whatever the squelch inputs are; the RX audio path is
    not held afterwards. *)
Theorem C1_ptt_preempts_rx (i : Inputs) (w : World) :
  ptt_held i ->
  opStatus (status w) <> TX ->
  txDisable (status w) = false ->
  let w' := exec (update i) w in
  opStatus (status w') = TX /\
  (exists before,
     events (update i) w =
       before ++
       [EvAudioRelease (rxAudioPath (self w')); EvRadioDisableRtx;
        EvAudioRequest SOURCE_MIC SINK_RTX PRIO_TX (in_txReq i);
        EvRadioEnableTx] ++
       [EvLedOff GREEN; EvLedOn RED; EvSleep 0 30]) /\
  (audio_consistent w -> rxPathOpen w' = false).
Proof.
  intros Hptt Hst Htxd w'.
  destruct (update_control_view i w) as [[_ _ _ Hrx _ Hop _ _ _ _] Hev].
  destruct (control_enter_tx i w Hptt Hst Htxd) as (Htx & _ & Hevc).
  assert (Hw' : opStatus (status w') = TX) by (unfold w'; congruence).
  split; [exact Hw'|]. split.
  - exists (events (rxLogic i) w). unfold w'. rewrite Hev, Hevc, Hrx.
    reflexivity.
  - intros Hwf. apply (update_audio_consistent i) in Hwf. fold w' in Hwf.
    destruct (audio_consistent_exclusive w' Hwf) as (_ & Hrxo & _).
    destruct (rxPathOpen w') eqn:E; [|reflexivity].
    specialize (Hrxo eq_refl). congruence.
Qed.

Lemma C1_ptt_preempts_rx_witness :
  opStatus (status (exec (update talk) world_rx)) = TX /\
  rxPathOpen (exec (update talk) world_rx) = false.
Proof.
  destruct (C1_ptt_preempts_rx talk world_rx) as (H1 & _ & H3).
  - split; reflexivity.
  - vm_compute. discriminate.
  - vm_compute. reflexivity.
  - split; [exact H1|]. apply H3. vm_compute. reflexivity.
Defined.

(** ** The OFF, RX, TX, OFF round trip *)

Lemma control_enter_rx i w :
  opStatus (status w) = OFF -> enterRx (self w) = true -> ptt_idle i ->
  opStatus (status (exec (control i) w)) = RX.
Proof.
  intros Hst Hen [Hp1 Hp2]. rewrite control_exec.
  destruct_world w. destruct_inputs i. cbn in Hst, Hen, Hp1, Hp2. subst.
  run_phases. reflexivity.
Qed.

Lemma control_exit_tx i w :
  opStatus (status w) = TX -> in_pttExit i = false ->
  let w' := exec (control i) w in
  opStatus (status w') = OFF /\ enterRx (self w') = true /\
  sqlOpen (self w') = false.
Proof.
  intros Hst Hp2. cbv zeta. rewrite control_exec.
  destruct_world w. destruct_inputs i. cbn in Hst, Hp2. subst.
  run_phases; repeat split.
Qed.

(** C3. Starting in OFF with the enter-RX flag set and transmit not
    disabled: a cycle with push-to-talk unasserted ends in RX, a next
    cycle with push-to-talk asserted ends in TX, and a next cycle with
    push-to-talk released ends in OFF with the enter-RX flag set again
    and the squelch-open flag false. *)
Theorem C3_off_rx_tx_off_round_trip (w : World) (i1 i2 i3 : Inputs) :
  opStatus (status w) = OFF ->
  enterRx (self w) = true ->
  txDisable (status w) = false ->
  ptt_idle i1 -> ptt_held i2 -> ptt_idle i3 ->
  round_trip w i1 i2 i3.
Proof.
  intros Hoff Hen Htxd Hi1 Hi2 Hi3. unfold round_trip. cbv zeta.
  set (w1 := exec (update i1) w).
  set (w2 := exec (update i2) w1).
  set (w3 := exec (update i3) w2).
  assert (H1 : opStatus (status w1) = RX).
  { destruct (update_control_view i1 w) as [[_ _ _ _ _ Hop _ _ _ _] _].
    unfold w1. rewrite Hop. apply control_enter_rx; assumption. }
  assert (Htxd1 : txDisable (status w1) = false).
  { unfold w1. destruct (update_config i1 w) as (_ & _ & ->). exact Htxd. }
  assert (H2 : opStatus (status w2) = TX).
  { destruct (update_control_view i2 w1) as [[_ _ _ _ _ Hop _ _ _ _] _].
    unfold w2. rewrite Hop.
    apply control_enter_tx; [exact Hi2|congruence|exact Htxd1]. }
  destruct (update_control_view i3 w2) as [[_ Hsq Hen3 _ _ Hop _ _ _ _] _].
  destruct (control_exit_tx i3 w2 H2 (proj2 Hi3)) as (H3 & H4 & H5).
  unfold rxSquelchOpen, w3. rewrite Hop, Hen3, Hsq. auto.
Qed.

Lemma C3_off_rx_tx_off_round_trip_witness :
  round_trip world0 quiet talk quiet.
Proof.
  apply C3_off_rx_tx_off_round_trip;
    first [reflexivity | split; reflexivity].
Defined.

(** C3, as stated: with transmit disabled the second cycle stays in RX,
    so the round trip without the transmit guard does not hold. *)
Lemma C3_round_trip_fails_when_tx_disabled :
  ~ (forall (w : World) (i1 i2 i3 : Inputs),
       opStatus (status w) = OFF ->
       enterRx (self w) = true ->
       ptt_idle i1 -> ptt_held i2 -> ptt_idle i3 ->
       round_trip w i1 i2 i3).
Proof.
  intros H.
  specialize (H (with_status (set_txDisable true) world0) quiet talk quiet).
  destruct H as (_ & H2 & _);
    try reflexivity; try (split; reflexivity).
  vm_compute in H2. discriminate.
Qed.

(** ** Squelch decision and audio gating *)

Lemma audio_consistent_rx_held w :
  audio_consistent w -> opStatus (status w) = RX ->
  rxPathOpen w = sqlOpen (self w).
Proof.
  unfold audio_consistent, rxPathOpen, holds. intros H Hrx.
  rewrite Hrx in H. rewrite H. destruct (sqlOpen (self w)); reflexivity.
Qed.

Lemma control_rx_gate i w :
  opStatus (status w) = RX ->
  let w' := exec (control i) w in
  let open := if rxToneEn (status w) then in_digSql i
              else rfSqlOpen (self w') in
  (open = true -> sqlOpen (self w) = false ->
   exists rest,
     events (control i) w =
       EvAudioRequest SOURCE_RTX SINK_SPK PRIO_RX (in_rxReq i) :: rest) /\
  (open = false -> sqlOpen (self w) = true ->
   exists rest,
     events (control i) w = EvAudioRelease (rxAudioPath (self w)) :: rest).
Proof.
  intros Hrx. cbv zeta. rewrite control_rfSqlOpen, Hrx.
  pose proof (control_events i w) as Ev. cbv zeta in Ev. rewrite Ev. clear Ev.
  destruct_world w. destruct_inputs i. cbn in Hrx. subst. cbn.
  unfold squelchDecision.
  split; intros Hopen ->; unfold events at 1; rewrite rxLogic_run; cbn;
    unfold squelchDecision; destruct tone; rewrite Hopen; cbn; eauto.
Qed.

Lemma control_rx_release_closes i w :
  audio_consistent w -> opStatus (status w) = RX ->
  sqlOpen (self w) = true ->
  (if rxToneEn (status w) then in_digSql i
   else rfSqlOpen (self (exec (control i) w))) = false ->
  audio (exec (rxLogic i) w) = [].
Proof.
  intros Hwf Hrx Hsq. rewrite control_rfSqlOpen, Hrx.
  unfold audio_consistent in Hwf. rewrite Hrx, Hsq in Hwf.
  destruct_world w. destruct_inputs i. cbn in Hrx, Hsq, Hwf. subst. cbn.
  intros Hopen. unfold exec. rewrite rxLogic_run. cbn.
  unfold squelchDecision. destruct tone; rewrite Hopen; cbn;
    case_decide; congruence.
Qed.

Lemma tx_phases_keep_rx_closed i w :
  audio w = [] -> rxPathOpen (exec (txExit i) (exec (txEnter i) w)) = false.
Proof.
  destruct_world w. destruct_inputs i. cbn. intros ->.
  unfold rxPathOpen, holds.
  destruct st; run_phases; repeat case_decide;
    first [reflexivity | unfold txRoute, rxRoute in *; congruence].
Qed.

(** C6. In a cycle that starts in RX the RF-squelch flag follows the
    hysteresis rule whether or not tone squelch is enabled; the effective
    squelch decision is that flag when tone squelch is disabled and the
    digital squelch signal when it is enabled; when the decision is open
    and the RX audio path is not held, the path is requested; when the
    decision is closed and the path is held, the path is released in the
    same cycle and is not held at its end. *)
Theorem C6_squelch_decision_gates_rx_audio (i : Inputs) (w : World) :
  audio_consistent w ->
  opStatus (status w) = RX ->
  let w' := exec (update i) w in
  let rf := rfSqlOpen (self w') in
  let open := if rxToneEn (status w) then in_digSql i else rf in
  rf = rfSquelch (squelch_threshold (sqlLevel (status w))) (in_rssi i)
                 (rfSqlOpen (self w)) /\
  (open = true -> rxPathOpen w = false ->
   exists rest,
     events (update i) w =
       EvAudioRequest SOURCE_RTX SINK_SPK PRIO_RX (in_rxReq i) :: rest) /\
  (open = false -> rxPathOpen w = true ->
   (exists rest,
      events (update i) w =
        EvAudioRelease (rxAudioPath (self w)) :: rest) /\
   rxPathOpen w' = false).
Proof.
  intros Hwf Hrx w' rf open.
  pose proof (audio_consistent_rx_held w Hwf Hrx) as Hheld.
  destruct (update_control_view i w) as [[Hrf _ _ _ _ _ _ _ _ _] Hev].
  destruct (control_rx_gate i w Hrx) as [Hreq Hrel].
  unfold open, rf, w'. rewrite Hev, Hrf, Hheld.
  split; [rewrite control_rfSqlOpen, Hrx; reflexivity|].
  split; [exact Hreq|].
  intros Hopen Hsq. split; [exact (Hrel Hopen Hsq)|].
  pose proof (control_rx_release_closes i w Hwf Hrx Hsq Hopen) as Hnil.
  assert (Hc : rxPathOpen (exec (control i) w) = false).
  { rewrite control_exec. apply tx_phases_keep_rx_closed, Hnil. }
  destruct (update_control_view i w) as [[_ _ _ _ _ _ _ _ _ Ha] _].
  unfold rxPathOpen, holds in *. rewrite Ha. exact Hc.
Qed.

Lemma C6_squelch_decision_gates_rx_audio_witness :
  exists rest,
    events (update loud) world_rx =
      EvAudioRequest SOURCE_RTX SINK_SPK PRIO_RX (in_rxReq loud) :: rest.
Proof.
  destruct (C6_squelch_decision_gates_rx_audio loud world_rx) as (_ & H & _).
  - vm_compute. reflexivity.
  - vm_compute. reflexivity.
  - apply H; vm_compute; reflexivity.
Defined.

(** ** The squelch flag across a transmission *)

Lemma control_in_tx i w :
  opStatus (status w) = TX ->
  let w' := exec (control i) w in
  opStatus (status w') = (if in_pttExit i then TX else OFF) /\
  sqlOpen (self w') = (if in_pttExit i then sqlOpen (self w) else false).
Proof.
  intros Hst. cbv zeta. rewrite control_exec.
  destruct_world w. destruct_inputs i. cbn in Hst. subst.
  run_phases; repeat split.
Qed.

Lemma update_in_tx i w :
  opStatus (status w) = TX ->
  let w' := exec (update i) w in
  opStatus (status w') = (if in_pttExit i then TX else OFF) /\
  rxSquelchOpen w' = (if in_pttExit i then rxSquelchOpen w else false).
Proof.
  intros Hst. cbv zeta. unfold rxSquelchOpen.
  destruct (update_control_view i w) as [[_ -> _ _ _ -> _ _ _ _] _].
  apply control_in_tx, Hst.
Qed.

Lemma run_in_tx cycles w :
  Forall ptt_held cycles -> opStatus (status w) = TX ->
  opStatus (status (run cycles w)) = TX /\
  rxSquelchOpen (run cycles w) = rxSquelchOpen w.
Proof.
  intros Hall. revert w.
  induction Hall as [|i cycles [_ Hi] _ IH]; intros w Hst; simpl.
  - split; [exact Hst|reflexivity].
  - destruct (update_in_tx i w Hst) as [H1 H2]. rewrite Hi in H1, H2.
    destruct (IH _ H1) as [H3 H4]. rewrite H3, H4, H2. split; reflexivity.
Qed.

Lemma audio_consistent_tx_rx_closed w :
  audio_consistent w -> opStatus (status w) = TX -> rxPathOpen w = false.
Proof.
  intros Hwf Hst. destruct (audio_consistent_exclusive w Hwf) as (_ & H & _).
  destruct (rxPathOpen w); [|reflexivity].
  specialize (H eq_refl). congruence.
Qed.

(** C10. Entering TX leaves the squelch-open flag as the RX logic of
    that cycle left it.  While push-to-talk stays asserted the state stays
    TX and [rxSquelchOpen] keeps returning that value, although the RX
    audio path is no longer held.  In TX the flag is cleared only by a
    cycle in which push-to-talk is released, and that cycle ends in OFF. *)
Theorem C10_squelch_flag_survives_tx
    (i : Inputs) (held : list Inputs) (j : Inputs) (w : World) :
  audio_consistent w ->
  opStatus (status w) <> TX ->
  txDisable (status w) = false ->
  ptt_held i ->
  Forall ptt_held held ->
  let w1 := exec (update i) w in
  let w2 := run held w1 in
  let w3 := exec (update j) w2 in
  rxSquelchOpen w1 = rxSquelchOpen (exec (rxLogic i) w) /\
  opStatus (status w1) = TX /\ rxPathOpen w1 = false /\
  opStatus (status w2) = TX /\ rxSquelchOpen w2 = rxSquelchOpen w1 /\
  rxPathOpen w2 = false /\
  (rxSquelchOpen w2 = true -> rxSquelchOpen w3 = false ->
   in_pttExit j = false /\ opStatus (status w3) = OFF) /\
  (in_pttExit j = false ->
   rxSquelchOpen w3 = false /\ opStatus (status w3) = OFF).
Proof.
  intros Hwf Hst Htxd Hi Hheld w1 w2 w3.
  destruct (update_control_view i w) as [[_ Hsq _ _ _ Hop _ _ _ _] _].
  destruct (control_enter_tx i w Hi Hst Htxd) as (Htx & Hkeep & _).
  assert (H1 : opStatus (status w1) = TX) by (unfold w1; congruence).
  assert (Hwf1 : audio_consistent w1) by apply update_audio_consistent, Hwf.
  destruct (run_in_tx held w1 Hheld H1) as [H2 Hsq2]. fold w2 in H2, Hsq2.
  assert (Hwf2 : audio_consistent w2) by apply run_audio_consistent, Hwf1.
  destruct (update_in_tx j w2 H2) as [H3 Hsq3]. fold w3 in H3, Hsq3.
  repeat split.
  - unfold rxSquelchOpen, w1. congruence.
  - exact H1.
  - apply audio_consistent_tx_rx_closed; assumption.
  - exact H2.
  - exact Hsq2.
  - apply audio_consistent_tx_rx_closed; assumption.
  - destruct (in_pttExit j); [congruence|reflexivity].
  - destruct (in_pttExit j); [congruence|exact H3].
  - rewrite Hsq3, H. reflexivity.
  - rewrite H3, H. reflexivity.
Qed.

Lemma C10_squelch_flag_survives_tx_witness :
  rxSquelchOpen (exec (rxLogic talk) world_open) = true /\
  rxSquelchOpen (run [talk; talk] (exec (update talk) world_open)) = true /\
  rxPathOpen (run [talk; talk] (exec (update talk) world_open)) = false /\
  rxSquelchOpen
    (exec (update quiet) (run [talk; talk] (exec (update talk) world_open)))
  = false.
Proof.
  destruct (C10_squelch_flag_survives_tx talk [talk; talk] quiet world_open)
    as (H1 & _ & _ & _ & H5 & H6 & _ & H8).
  - vm_compute. reflexivity.
  - vm_compute. discriminate.
  - vm_compute. reflexivity.
  - split; reflexivity.
  - repeat constructor.
  - split; [vm_compute; reflexivity|].
    split; [rewrite H5, H1; vm_compute; reflexivity|].
    split; [exact H6|]. apply H8. reflexivity.
Defined.

(** ** Failed audio path requests *)

(** A refused RX request leaves [sqlOpen] clear and nothing held, so the
    next RX cycle with the squelch still open asks again (see
    [control_rx_gate]). *)
Lemma rxLogic_failed_request i w :
  opStatus (status w) = RX -> sqlOpen (self w) = false -> in_rxReq i <= 0 ->
  sqlOpen (self (exec (rxLogic i) w)) = false /\
  audio (exec (rxLogic i) w) = audio w.
Proof.
  intros Hrx Hsq Hreq. destruct_world w. destruct_inputs i.
  cbn in Hrx, Hsq, Hreq. subst. unfold exec. rewrite rxLogic_run. cbn.
  assert (E : (0 <? rxr) = false) by (apply Z.ltb_ge; lia). rewrite E.
  split_if; split; reflexivity.
Qed.

(** A refused TX request is not looked at: the controller still enters
    TX, with no TX route held. *)
Lemma control_failed_tx_request i w :
  audio_consistent w -> ptt_held i -> opStatus (status w) <> TX ->
  txDisable (status w) = false -> in_txReq i <= 0 ->
  let w' := exec (control i) w in
  opStatus (status w') = TX /\ txPathOpen w' = false.
Proof.
  intros Hwf [Hp1 Hp2] Hst Htxd Hreq. cbv zeta. rewrite control_exec.
  destruct_world w. destruct_inputs i.
  unfold audio_consistent in Hwf. cbn in Hwf, Hp1, Hp2, Hst, Htxd, Hreq.
  subst. assert (E : (0 <? txr) = false) by (apply Z.ltb_ge; lia).
  unfold rfSquelch, squelchDecision, txPathOpen, holds.
  destruct st; [destruct Hwf as [-> ->] | destruct sq; subst a | congruence];
    run_phases; rewrite ?E in *; try discriminate;
    repeat case_decide; first [split; reflexivity | congruence].
Qed.

(** In TX with push-to-talk held no audio path is requested. *)
Lemma control_tx_no_request i w :
  opStatus (status w) = TX -> in_pttExit i = true ->
  events (control i) w = [EvLedOff GREEN; EvLedOn RED; EvSleep 0 30].
Proof.
  intros Hst Hp2.
  pose proof (control_events i w) as Ev. cbv zeta in Ev. rewrite Ev. clear Ev.
  destruct_world w. destruct_inputs i. cbn in Hst, Hp2. subst.
  run_phases; reflexivity.
Qed.

(** C2. The stated invariant fails on the code: from the enabled idle
    state, one quiet cycle and one cycle with push-to-talk pressed and
    the TX audio request refused end in state TX with no TX audio path
    held. *)
Theorem C2_tx_state_without_tx_audio_path :
  let w := run [quiet; denied] world0 in
  opStatus (status w) = TX /\ txPathOpen w = false /\ rxPathOpen w = false.
Proof. vm_compute. repeat split. Qed.

(** C7. A refused TX audio request is not treated as "not granted": in
    the cycle of the refusal the controller still activates RF transmit
    and enters TX, and the following cycle with push-to-talk held makes
    no new request. *)
Theorem C7_refused_tx_request_proceeds_without_retry :
  let w := exec (update denied) world_rx in
  in_txReq denied = -1 /\
  events (update denied) world_rx =
    [EvAudioRelease 0; EvRadioDisableRtx;
     EvAudioRequest SOURCE_MIC SINK_RTX PRIO_TX (-1); EvRadioEnableTx;
     EvLedOff GREEN; EvLedOn RED; EvSleep 0 30] /\
  opStatus (status w) = TX /\
  events (update denied) w = [EvLedOff GREEN; EvLedOn RED; EvSleep 0 30].
Proof. vm_compute. repeat split. Qed.

(** ** The one-shot batch of test packets *)

Lemma content_alter (g : aprsPacket_t -> aprsPacket_t) l
    (m : gmap loc aprsPacket_t) :
  (forall p, content (g p) = content p) ->
  content <$> alter g l m = content <$> m.
Proof.
  intros Hg. apply map_eq. intros l'. rewrite !lookup_fmap.
  destruct (decide (l = l')) as [->|Hne].
  - rewrite lookup_alter_eq. destruct (m !! l'); simpl; [|reflexivity].
    rewrite Hg. reflexivity.
  - rewrite lookup_alter_ne by exact Hne. reflexivity.
Qed.

(** One iteration adds one packet at a fresh address and changes no
    content of the packets already there. *)
Lemma addTestPkt_content i k w :
  content <$> heap (exec (addTestPkt i k) w) =
  <[fresh (dom (heap w)) := content (testPacket i k)]> (content <$> heap w).
Proof.
  unfold addTestPkt, exec, cmd_bind, malloc_pkt, stat, aprsPktsInsert,
    set_stat, modify.
  cbn [fst snd with_heap with_status status self audio heap].
  destruct (aprsPkts (status w));
    cbn [fst snd with_heap with_status status self audio heap].
  - rewrite !content_alter by reflexivity. apply fmap_insert.
  - apply fmap_insert.
Qed.

Lemma for_each_addTestPkt_content i ks w :
  content <$> heap (exec (for_each ks (addTestPkt i)) w) =
  alloc_all i ks (content <$> heap w).
Proof.
  revert w. induction ks as [|k ks IH]; intros w; simpl.
  - reflexivity.
  - rewrite exec_bind, IH, addTestPkt_content, dom_fmap_L. reflexivity.
Qed.

Lemma alloc_all_spec i ks cm :
  exists locs : list loc,
    length locs = length ks /\
    NoDup locs /\
    (forall l, l ∈ locs -> cm !! l = None) /\
    dom (alloc_all i ks cm) = dom cm ∪ list_to_set locs /\
    (forall j k l, ks !! j = Some k -> locs !! j = Some l ->
       alloc_all i ks cm !! l = Some (content (testPacket i k))) /\
    (forall l c, cm !! l = Some c -> alloc_all i ks cm !! l = Some c).
Proof.
  revert cm. induction ks as [|k ks IH]; intros cm; simpl.
  - exists []. repeat split.
    + constructor.
    + intros l Hl. inversion Hl.
    + set_solver.
    + intros j k l Hj. rewrite lookup_nil in Hj. discriminate.
    + auto.
  - set (l0 := fresh (dom cm)).
    assert (Hl0 : cm !! l0 = None) by (apply not_elem_of_dom, is_fresh).
    destruct (IH (<[l0 := content (testPacket i k)]> cm))
      as (locs & Hlen & Hnd & Hfresh & Hdom & Hnew & Hold).
    exists (l0 :: locs). repeat split.
    + simpl. rewrite Hlen. reflexivity.
    + constructor; [|exact Hnd]. intros Hin. apply Hfresh in Hin.
      rewrite lookup_insert_eq in Hin. discriminate.
    + intros l Hl. apply elem_of_cons in Hl as [->|Hl]; [exact Hl0|].
      apply Hfresh in Hl. apply lookup_insert_None in Hl. tauto.
    + rewrite Hdom, dom_insert_L. set_solver.
    + intros [|j] k' l Hk Hl; simpl in Hk, Hl.
      * injection Hk as <-. injection Hl as <-.
        apply Hold, lookup_insert_eq.
      * eapply Hnew; eassumption.
    + intros l c Hl. apply Hold. rewrite lookup_insert_ne; [exact Hl|].
      intros <-. congruence.
Qed.

Lemma addTestPkt_counters i k w :
  aprsRecv (status (exec (addTestPkt i k) w)) = aprsRecv (status w) /\
  aprsSaved (status (exec (addTestPkt i k) w)) = aprsSaved (status w).
Proof.
  unfold addTestPkt, exec, cmd_bind, malloc_pkt, stat, aprsPktsInsert,
    set_stat, modify.
  cbn [fst snd with_heap with_status status self audio heap].
  destruct (aprsPkts (status w)); split; reflexivity.
Qed.

Lemma batch_content i w :
  content <$> heap (exec (batch i) w) =
  alloc_all i (seq 0 10) (content <$> heap w).
Proof.
  unfold batch. do 3 rewrite exec_bind.
  set (w2 := exec (set_stat (set_aprsSaved 10))
                  (exec (set_stat (set_aprsRecv 10)) w)).
  change (heap w) with (heap w2). clearbody w2.
  rewrite <- for_each_addTestPkt_content.
  generalize (exec (for_each (seq 0 10) (addTestPkt i)) w2). reflexivity.
Qed.

Lemma batch_counters i w :
  aprsRecv (status (exec (batch i) w)) = 10 /\
  aprsSaved (status (exec (batch i) w)) = 10.
Proof.
  unfold batch. do 3 rewrite exec_bind.
  set (w2 := exec (set_stat (set_aprsSaved 10))
                  (exec (set_stat (set_aprsRecv 10)) w)).
  assert (H2 : aprsRecv (status w2) = 10 /\ aprsSaved (status w2) = 10)
    by (split; reflexivity).
  clearbody w2.
  apply (for_each_exec_inv
           (fun w => aprsRecv (status w) = 10 /\ aprsSaved (status w) = 10)
           (seq 0 10) (addTestPkt i)) in H2.
  - revert H2.
    generalize (exec (for_each (seq 0 10) (addTestPkt i)) w2). intros w3 H3.
    exact H3.
  - intros k w' [Hr Hs]. destruct (addTestPkt_counters i k w') as [-> ->].
    split; assumption.
Qed.

(** The control part leaves the heap, the queue and the one-shot flag
    alone. *)
Lemma control_frame i w :
  let w' := exec (control i) w in
  heap w' = heap w /\
  aprsPkts (status w') = aprsPkts (status w) /\
  aprsRecv (status w') = aprsRecv (status w) /\
  aprsSaved (status w') = aprsSaved (status w) /\
  makePkts (self w') = makePkts (self w).
Proof.
  cbv zeta. rewrite control_exec. destruct_world w. destruct_inputs i.
  unfold rfSquelch, squelchDecision.
  destruct st; run_phases; repeat split.
Qed.

(** A cycle whose one-shot flag is clear allocates nothing and leaves the
    queue as it is; the flag stays clear. *)
Lemma update_no_batch i w :
  makePkts (self w) = false ->
  let w' := exec (update i) w in
  heap w' = heap w /\
  aprsPkts (status w') = aprsPkts (status w) /\
  makePkts (self w') = false.
Proof.
  intros Hmk. cbv zeta. rewrite update_exec, makeTestPkts_exec, Hmk.
  destruct (control_frame i w) as (-> & -> & _ & _ & ->). auto.
Qed.

Lemma run_no_batch cycles w :
  makePkts (self w) = false ->
  heap (run cycles w) = heap w /\
  aprsPkts (status (run cycles w)) = aprsPkts (status w).
Proof.
  revert w. induction cycles as [|i cycles IH]; intros w Hmk; simpl.
  - auto.
  - destruct (update_no_batch i w Hmk) as (Hh & Hq & Hmk').
    destruct (IH _ Hmk') as [-> ->]. auto.
Qed.

(** The destination addresses and payloads of the ten test packets. *)
Lemma testPacket_texts i :
  map (fun k => (addresses (testPacket i k), info (testPacket i k)))
      (seq 0 10) =
  map (fun s => ([mkAddress ("APRS" +:+ s) 0; mkAddress "N2BP" 7],
                 ":Test packet " +:+ s))
      ["0"; "1"; "2"; "3"; "4"; "5"; "6"; "7"; "8"; "9"].
Proof. reflexivity. Qed.

(** The texts of test packet [k], written out. *)
Lemma testPacket_literal i k :
  (k < 10)%nat ->
  addresses (testPacket i k) =
    [mkAddress ("APRS" +:+ decimal k) 0; mkAddress "N2BP" 7] /\
  info (testPacket i k) = ":Test packet " +:+ decimal k /\
  ts (testPacket i k) = in_time i k /\
  prev (testPacket i k) = None /\ next (testPacket i k) = None.
Proof.
  intros Hk.
  do 10 (destruct k as [|k]; [repeat split|]). lia.
Qed.

(** C9. After [enable], the first [update] synthesizes exactly ten test
    packets, each at a fresh address.  Packet [k] carries the [k]-th
    clock reading of the cycle, the destination address ["APRS"]
    followed by [k] with SSID 0, the source address ["N2BP"] with SSID 7
    and the payload [":Test packet "] followed by [k].  Both counters are
    set to ten.  No later cycle of the same enable period allocates a
    packet or changes the queue. *)
Theorem C9_test_packets_made_once
    (w : World) (i : Inputs) (later : list Inputs) :
  let w0 := enable w in
  let w1 := exec (update i) w0 in
  let w2 := run later w1 in
  (exists locs : list loc,
     length locs = 10%nat /\
     NoDup locs /\
     (forall l, l ∈ locs -> heap w0 !! l = None) /\
     dom (heap w1) = dom (heap w0) ∪ list_to_set locs /\
     (forall k l, locs !! k = Some l ->
        exists p, heap w1 !! l = Some p /\
                  addresses p = addresses (testPacket i k) /\
                  info p = info (testPacket i k) /\
                  ts p = in_time i k /\
                  addresses p =
                    [mkAddress ("APRS" +:+ decimal k) 0;
                     mkAddress "N2BP" 7] /\
                  info p = ":Test packet " +:+ decimal k)) /\
  size (heap w1) = (size (heap w0) + 10)%nat /\
  aprsRecv (status w1) = 10 /\
  aprsSaved (status w1) = 10 /\
  heap w2 = heap w1 /\
  aprsPkts (status w2) = aprsPkts (status w1).
Proof.
  intros w0 w1 w2.
  assert (Hmk0 : makePkts (self w0) = true) by reflexivity.
  assert (Hheap : heap w1 = heap (exec (batch i) w0)).
  { unfold w1. rewrite update_exec, makeTestPkts_exec, Hmk0.
    apply control_frame. }
  assert (Hcnt : aprsRecv (status w1) = 10 /\ aprsSaved (status w1) = 10).
  { unfold w1. rewrite update_exec, makeTestPkts_exec, Hmk0.
    destruct (control_frame i (exec (batch i) w0)) as (_ & _ & -> & -> & _).
    apply batch_counters. }
  assert (Hmk1 : makePkts (self w1) = false).
  { unfold w1. rewrite update_exec.
    destruct (control_frame i (exec (makeTestPkts i) w0)) as (_ & _ & _ & _ & ->).
    apply makeTestPkts_makePkts. }
  pose proof (batch_content i w0) as Hc. rewrite <- Hheap in Hc.
  destruct (alloc_all_spec i (seq 0 10) (content <$> heap w0))
    as (locs & Hlen & Hnd & Hfresh & Hdom & Hnew & _).
  rewrite <- Hc in Hdom, Hnew. rewrite !dom_fmap_L in Hdom.
  assert (Hfresh' : forall l, l ∈ locs -> heap w0 !! l = None).
  { intros l Hl. apply Hfresh in Hl. rewrite lookup_fmap in Hl.
    destruct (heap w0 !! l); [discriminate|reflexivity]. }
  split; [|split; [|split; [|split; [|apply run_no_batch, Hmk1]]]].
  - exists locs. split; [exact Hlen|]. split; [exact Hnd|].
    split; [exact Hfresh'|]. split; [exact Hdom|].
    intros k l Hl.
    assert (Hk : seq 0 10 !! k = Some k).
    { apply lookup_lt_Some in Hl. rewrite Hlen, length_seq in Hl.
      rewrite lookup_seq. split; [reflexivity|exact Hl]. }
    specialize (Hnew k k l Hk Hl). rewrite lookup_fmap in Hnew.
    destruct (heap w1 !! l) as [p|]; [|discriminate].
    exists p. injection Hnew as Ha Hi Ht.
    assert (Hk10 : (k < 10)%nat).
    { apply lookup_lt_Some in Hl. rewrite Hlen in Hl. exact Hl. }
    destruct (testPacket_literal i k Hk10) as (La & Li & _).
    split; [reflexivity|]. split; [exact Ha|]. split; [exact Hi|].
    split; [exact Ht|].
    split; [rewrite <- La; exact Ha | rewrite <- Li; exact Hi].
  - rewrite <- (size_dom (heap w1)), Hdom, size_union, size_dom,
      size_list_to_set, Hlen; [reflexivity|exact Hnd|].
    intros l Hl Hl'. apply elem_of_list_to_set in Hl'.
    apply elem_of_dom in Hl as [c Hcl]. rewrite (Hfresh' l Hl') in Hcl.
    discriminate.
  - apply Hcnt.
  - apply Hcnt.
Qed.

(** ** Teardown *)

(** The traversal never gets past its first node: releasing the node
    comes before the read of its [next] field. *)
Lemma freeLoop_outcome bound pkt (h : gmap loc aprsPacket_t) :
  freeLoop (S bound) pkt h =
  match pkt with
  | None => inr h
  | Some l =>
      match h !! l with
      | Some _ => inl (UseAfterFree l, delete l h)
      | None => inl (InvalidFree l, h)
      end
  end.
Proof.
  destruct pkt as [l|]; [|reflexivity]. simpl.
  unfold aprsPktFree. destruct (h !! l) eqn:E; [|reflexivity].
  unfold read_next. rewrite lookup_delete_eq. reflexivity.
Qed.

(** [disable] always terminates: the bound of the traversal is never
    reached. *)
Lemma disable_within_bound w w' : disable w <> inl (LoopBound, w').
Proof.
  unfold disable. rewrite freeLoop_outcome.
  destruct (aprsPkts (status w)) as [l|]; [|discriminate].
  destruct (heap w !! l); discriminate.
Qed.

(** With a queued packet at the head, [disable] releases it and then
    reads its [next] field; the shared status record still names the
    released packet as the head. *)
Lemma disable_use_after_free w l p :
  aprsPkts (status w) = Some l -> heap w !! l = Some p ->
  disable w = inl (UseAfterFree l, with_heap (fun _ => delete l (heap w)) w).
Proof.
  intros Hhead Hl. unfold disable. rewrite freeLoop_outcome, Hhead, Hl.
  reflexivity.
Qed.

(** With an empty queue, [disable] completes: both LEDs off, both audio
    handles released, RF off, flags cleared, heap untouched. *)
Lemma disable_empty_queue w :
  aprsPkts (status w) = None ->
  exists w',
    disable w =
      inr (w', [EvLedOff GREEN; EvLedOff RED;
                EvAudioRelease (rxAudioPath (self w));
                EvAudioRelease (txAudioPath (self w)); EvRadioDisableRtx]) /\
    heap w' = heap w /\ status w' = status w /\
    rfSqlOpen (self w') = false /\ sqlOpen (self w') = false /\
    enterRx (self w') = false.
Proof.
  intros Hhead. unfold disable. rewrite freeLoop_outcome, Hhead.
  eexists. split; [reflexivity|]. repeat split.
Qed.

(** C8. [disable] on the queue made by the first cycle after [enable]
    (ten packets, head at address 10): the head packet is released, its
    [next] field is read afterwards, the other nine packets are never
    released, and the head reference of the shared status record still
    names the released packet. *)
Theorem C8_disable_uses_released_packet :
  let head : loc := 10%positive in
  aprsPkts (status world_rx) = Some head /\
  size (heap world_rx) = 10%nat /\
  exists w',
    disable world_rx = inl (UseAfterFree head, w') /\
    heap w' !! head = None /\
    size (heap w') = 9%nat /\
    aprsPkts (status w') = Some head.
Proof.
  cbv zeta. split; [vm_compute; reflexivity|].
  split; [vm_compute; reflexivity|].
  assert (Hl : exists p, heap world_rx !! 10%positive = Some p).
  { eexists. vm_compute. reflexivity. }
  destruct Hl as [p Hl].
  exists (with_heap (fun _ => delete 10%positive (heap world_rx)) world_rx).
  split; [apply (disable_use_after_free _ _ p); [vm_compute; reflexivity|exact Hl]|].
  split; [apply lookup_delete_eq|].
  split; vm_compute; reflexivity.
Qed.

(** * Further properties of the controller *)

(** ** The state a cycle ends in *)

Lemma control_opStatus i w :
  opStatus (status (exec (control i) w)) =
  let s1 := afterEnterRx (opStatus (status w)) (enterRx (self w)) in
  let s2 := if in_pttEnter i && negb (bool_decide (s1 = TX))
               && negb (txDisable (status w))
            then TX else s1 in
  if negb (in_pttExit i) && bool_decide (s2 = TX) then OFF else s2.
Proof.
  rewrite control_exec. destruct_world w. destruct_inputs i.
  unfold rfSquelch, squelchDecision.
  destruct st, en, p1, txd, p2;
    do 3 (cbn; decide_status); run_phases; reflexivity.
Qed.

Lemma update_opStatus i w :
  opStatus (status (exec (update i) w)) =
  let s1 := afterEnterRx (opStatus (status w)) (enterRx (self w)) in
  let s2 := if in_pttEnter i && negb (bool_decide (s1 = TX))
               && negb (txDisable (status w))
            then TX else s1 in
  if negb (in_pttExit i) && bool_decide (s2 = TX) then OFF else s2.
Proof.
  destruct (update_control_view i w) as [[_ _ _ _ _ -> _ _ _ _] _].
  apply control_opStatus.
Qed.

(** X1. The transition table of one cycle when both push-to-talk samples
    agree.  Released: OFF goes to RX if the enter-RX flag is set and stays
    OFF otherwise, RX stays RX, TX goes to OFF.  Asserted with transmit
    enabled: every state goes to TX.  Asserted with transmit disabled:
    TX stays TX, the other states behave as with the signal released. *)
Theorem X1_transition_table (i : Inputs) (w : World) :
  let s := opStatus (status w) in
  let s' := opStatus (status (exec (update i) w)) in
  (ptt_idle i ->
   s' = match s with
        | OFF => if enterRx (self w) then RX else OFF
        | RX => RX
        | TX => OFF
        end) /\
  (ptt_held i -> txDisable (status w) = false -> s' = TX) /\
  (ptt_held i -> txDisable (status w) = true ->
   s' = match s with
        | OFF => if enterRx (self w) then RX else OFF
        | RX => RX
        | TX => TX
        end).
Proof.
  cbv zeta. rewrite update_opStatus. cbv zeta.
  repeat split.
  - intros [-> ->].
    destruct (opStatus (status w)), (enterRx (self w)); reflexivity.
  - intros [-> ->] ->.
    destruct (opStatus (status w)), (enterRx (self w)); reflexivity.
  - intros [-> ->] ->.
    destruct (opStatus (status w)), (enterRx (self w)); reflexivity.
Qed.

Lemma X1_transition_table_witness :
  opStatus (status (exec (update quiet) world0)) = RX /\
  opStatus (status (exec (update talk) world_rx)) = TX /\
  opStatus (status (exec (update talk)
     (with_status (set_txDisable true) world_rx))) = RX.
Proof.
  split; [|split].
  - destruct (X1_transition_table quiet world0) as (H & _ & _).
    apply H. split; reflexivity.
  - destruct (X1_transition_table talk world_rx) as (_ & H & _).
    apply H; [split; reflexivity | vm_compute; reflexivity].
  - destruct (X1_transition_table talk
                (with_status (set_txDisable true) world_rx)) as (_ & _ & H).
    rewrite H; [vm_compute; reflexivity | split; reflexivity
               | vm_compute; reflexivity].
Defined.

(** ** Push-to-talk edges *)

Lemma control_ptt_glitch i w :
  audio_consistent w ->
  in_pttEnter i = true -> in_pttExit i = false ->
  opStatus (status w) <> TX -> txDisable (status w) = false ->
  let w' := exec (control i) w in
  opStatus (status w') = OFF /\ enterRx (self w') = true /\
  sqlOpen (self w') = false /\ audio w' = [] /\
  events (control i) w =
    events (rxLogic i) w ++
    enterTxEvents (rxAudioPath (self w')) (in_txReq i) ++
    [EvAudioRelease (in_txReq i); EvRadioDisableRtx;
     EvLedOff GREEN; EvLedOff RED; EvSleep 0 30].
Proof.
  intros Hwf Hp1 Hp2 Hst Htxd. cbv zeta.
  pose proof (control_events i w) as Ev. cbv zeta in Ev. rewrite Ev. clear Ev.
  rewrite control_exec. destruct_world w. destruct_inputs i.
  unfold audio_consistent in Hwf. cbn in Hwf, Hp1, Hp2, Hst, Htxd. subst.
  unfold rfSquelch, squelchDecision.
  destruct st; [destruct Hwf as [-> ->] | destruct sq; subst a | congruence];
    run_phases; repeat case_decide; cbn; repeat split; congruence.
Qed.

(** X2. A push-to-talk pulse inside one cycle (asserted at the first
    sample, released at the second): from a state other than TX with
    transmit enabled, the controller enters and leaves TX in that cycle;
    the TX audio path is requested and the handle just obtained is
    released again, no audio path is held at the end, and the cycle ends
    in OFF with the enter-RX flag set and the squelch-open flag false. *)
Theorem X2_ptt_pulse_within_cycle (i : Inputs) (w : World) :
  audio_consistent w ->
  in_pttEnter i = true -> in_pttExit i = false ->
  opStatus (status w) <> TX -> txDisable (status w) = false ->
  let w' := exec (update i) w in
  opStatus (status w') = OFF /\ enterRx (self w') = true /\
  rxSquelchOpen w' = false /\ audio w' = [] /\
  exists before,
    events (update i) w =
      before ++
      [EvAudioRelease (rxAudioPath (self w')); EvRadioDisableRtx;
       EvAudioRequest SOURCE_MIC SINK_RTX PRIO_TX (in_txReq i);
       EvRadioEnableTx;
       EvAudioRelease (in_txReq i); EvRadioDisableRtx;
       EvLedOff GREEN; EvLedOff RED; EvSleep 0 30].
Proof.
  intros Hwf Hp1 Hp2 Hst Htxd. cbv zeta. unfold rxSquelchOpen.
  destruct (update_control_view i w) as [[_ -> -> -> _ -> _ _ _ ->] ->].
  destruct (control_ptt_glitch i w Hwf Hp1 Hp2 Hst Htxd)
    as (H1 & H2 & H3 & H4 & H5).
  repeat split; try assumption.
  exists (events (rxLogic i) w). rewrite H5. reflexivity.
Qed.

Lemma X2_ptt_pulse_within_cycle_witness :
  opStatus (status (exec (update pulse) world_open)) = OFF /\
  audio (exec (update pulse) world_open) = [].
Proof.
  destruct (X2_ptt_pulse_within_cycle pulse world_open)
    as (H1 & _ & _ & H4 & _).
  - vm_compute. reflexivity.
  - reflexivity.
  - reflexivity.
  - vm_compute. discriminate.
  - vm_compute. reflexivity.
  - split; assumption.
Defined.




(** ** The transmit guard *)

Lemma control_tx_disabled i w :
  opStatus (status w) <> TX -> txDisable (status w) = true ->
  opStatus (status (exec (control i) w)) <> TX /\
  forallb (fun e => negb (is_tx_command e)) (events (control i) w) = true.
Proof.
  intros Hst Htxd.
  pose proof (control_events i w) as Ev. cbv zeta in Ev. rewrite Ev. clear Ev.
  rewrite control_exec. destruct_world w. destruct_inputs i.
  cbn in Hst, Htxd. subst. unfold rfSquelch, squelchDecision.
  destruct st; [| |congruence]; run_phases; repeat split_if; split;
    first [discriminate | reflexivity].
Qed.

(** X4. While transmit is disabled the controller never goes on the air:
    along every run of cycles that starts outside TX with [txDisable]
    set, whatever the push-to-talk and squelch inputs, the state never
    becomes TX, the guard stays set, and neither an RF-transmit command
    nor a request for the microphone path is sent. *)
Theorem X4_tx_disabled_never_transmits (cycles : list Inputs) (w : World) :
  opStatus (status w) <> TX -> txDisable (status w) = true ->
  opStatus (status (run cycles w)) <> TX /\
  txDisable (status (run cycles w)) = true /\
  forallb (fun e => negb (is_tx_command e)) (run_events cycles w) = true.
Proof.
  revert w. induction cycles as [|i cycles IH]; intros w Hst Htxd; simpl.
  - auto.
  - destruct (update_control_view i w) as [[_ _ _ _ _ Hop _ _ _ _] Hev].
    destruct (control_tx_disabled i w Hst Htxd) as [H1 H2].
    destruct (update_config i w) as (_ & _ & Hcfg).
    assert (Hst' : opStatus (status (exec (update i) w)) <> TX)
      by (rewrite Hop; exact H1).
    assert (Htxd' : txDisable (status (exec (update i) w)) = true)
      by (rewrite Hcfg; exact Htxd).
    destruct (IH _ Hst' Htxd') as (H3 & H4 & H5).
    repeat split; try assumption.
    rewrite forallb_app, Hev, H2, H5. reflexivity.
Qed.

Lemma X4_tx_disabled_never_transmits_witness :
  opStatus (status (run [talk; talk; quiet; talk]
     (with_status (set_txDisable true) world0))) <> TX.
Proof.
  apply (X4_tx_disabled_never_transmits [talk; talk; quiet; talk]
           (with_status (set_txDisable true) world0)).
  - vm_compute. discriminate.
  - reflexivity.
Defined.

(** ** An idle controller *)




Lemma alloc_all_size i ks cm :
  size (alloc_all i ks cm) = (size cm + length ks)%nat.
Proof.
  revert cm. induction ks as [|k ks IH]; intros cm; simpl.
  - lia.
  - rewrite IH, map_size_insert_None; [lia|].
    apply not_elem_of_dom, is_fresh.
Qed.




(** ** Indicators *)

(** X6. Every cycle ends with one command for the green LED, one for the
    red LED and the 30 ms sleep, in this order.  The LED commands show
    the state the cycle ends in: red alone in TX, both off in OFF; in RX
    both on when the digital squelch reads open, else green alone when
    the RF squelch flag is set, else both off. *)
Theorem X6_cycle_ends_with_leds_and_sleep (i : Inputs) (w : World) :
  let w' := exec (update i) w in
  exists before,
    events (update i) w =
      before ++
      ledEvents (opStatus (status w')) (in_digSqlLed i) (rfSqlOpen (self w'))
      ++ [EvSleep 0 30].
Proof.
  cbv zeta.
  destruct (update_control_view i w) as [[-> _ _ _ _ -> _ _ _ _] ->].
  pose proof (control_events i w) as Ev. cbv zeta in Ev. rewrite Ev. clear Ev.
  rewrite control_exec.
  exists (events (rxLogic i) w ++
          events (txEnter i) (exec (rxLogic i) w) ++
          events (txExit i) (exec (txEnter i) (exec (rxLogic i) w))).
  rewrite <- !app_assoc. do 3 f_equal.
  generalize (exec (txExit i) (exec (txEnter i) (exec (rxLogic i) w))).
  intros w3. unfold events. rewrite ledLogic_run. reflexivity.
Qed.

(** ** Squelch evaluation *)

(** X7. The RF squelch is only evaluated in cycles that start in RX.
    There, a signal strength above threshold + 1 always leaves the flag
    set and one below threshold - 1 always leaves it clear, whatever the
    flag was.  In a cycle that starts in OFF or TX the flag keeps its
    value, also when that cycle enters RX. *)
Theorem X7_rf_squelch_follows_strong_and_weak_signals
    (i : Inputs) (w : World) :
  let threshold := squelch_threshold (sqlLevel (status w)) in
  let after := rfSqlOpen (self (exec (update i) w)) in
  (opStatus (status w) = RX -> threshold + 1 < in_rssi i -> after = true) /\
  (opStatus (status w) = RX -> in_rssi i < threshold - 1 -> after = false) /\
  (opStatus (status w) <> RX -> after = rfSqlOpen (self w)).
Proof.
  cbv zeta. rewrite update_rfSqlOpen. unfold rfSquelch. repeat split.
  - intros -> H. destruct (rfSqlOpen (self w)).
    + apply negb_true_iff, Z.ltb_ge. lia.
    + apply Z.ltb_lt. lia.
  - intros -> H. destruct (rfSqlOpen (self w)).
    + apply negb_false_iff, Z.ltb_lt. lia.
    + apply Z.ltb_ge. lia.
  - intros H. destruct (opStatus (status w)); congruence.
Qed.

Lemma X7_rf_squelch_follows_strong_and_weak_signals_witness :
  rfSqlOpen (self (exec (update loud) world_rx)) = true /\
  rfSqlOpen (self (exec (update quiet) world_open)) = false /\
  rfSqlOpen (self (exec (update loud) world0)) = rfSqlOpen (self world0).
Proof.
  split; [|split].
  - destruct (X7_rf_squelch_follows_strong_and_weak_signals loud world_rx)
      as (H & _ & _).
    apply H; [vm_compute; reflexivity | vm_compute; reflexivity].
  - destruct (X7_rf_squelch_follows_strong_and_weak_signals quiet world_open)
      as (_ & H & _).
    apply H; [vm_compute; reflexivity | vm_compute; reflexivity].
  - destruct (X7_rf_squelch_follows_strong_and_weak_signals loud world0)
      as (_ & _ & H).
    apply H. vm_compute. discriminate.
Defined.

(** X8. The threshold is not clamped.  For every value the 8-bit squelch
    level can hold the threshold is [-127 + (level * 66) / 15] without
    wrap-around, it grows with the level up to 995, and every level
    above 15 gives a threshold above -61, the top of the documented
    range. *)
Theorem X8_threshold_is_not_clamped (level level' : Z) :
  0 <= level -> level <= level' -> level' <= 255 ->
  squelch_threshold level = -127 + (level * 66) / 15 /\
  squelch_threshold level <= squelch_threshold level' /\
  -127 <= squelch_threshold level <= 995 /\
  (15 < level -> -61 < squelch_threshold level).
Proof.
  intros H0 Hle H255.
  rewrite !squelch_threshold_formula by lia.
  assert (0 <= level * 66 / 15) by (apply Z.div_pos; lia).
  assert (level * 66 / 15 <= level' * 66 / 15) by (apply Z.div_le_mono; lia).
  assert (level' * 66 / 15 <= 255 * 66 / 15) by (apply Z.div_le_mono; lia).
  change (255 * 66 / 15) with 1122 in *.
  repeat split; try lia.
  intros H15.
  assert (16 * 66 / 15 <= level * 66 / 15) by (apply Z.div_le_mono; lia).
  change (16 * 66 / 15) with 70 in *. lia.
Qed.

Lemma X8_threshold_is_not_clamped_witness :
  squelch_threshold 16 = -127 + (16 * 66) / 15 /\
  squelch_threshold 16 <= squelch_threshold 255 /\
  -127 <= squelch_threshold 16 <= 995 /\
  (15 < 16 -> -61 < squelch_threshold 16).
Proof.
  apply (X8_threshold_is_not_clamped 16 255); lia.
Defined.

(** ** The RX audio path *)

Lemma control_rx_request i w :
  audio_consistent w -> opStatus (status w) = RX ->
  sqlOpen (self w) = false -> in_pttEnter i = false ->
  squelchDecision (rxToneEn (status w)) (in_digSql i)
    (rfSquelch (squelch_threshold (sqlLevel (status w))) (in_rssi i)
               (rfSqlOpen (self w))) = true ->
  let w' := exec (control i) w in
  opStatus (status w') = RX /\
  rxAudioPath (self w') = in_rxReq i /\
  sqlOpen (self w') = (0 <? in_rxReq i) /\
  audio w' = (if 0 <? in_rxReq i then [(in_rxReq i, rxRoute)] else []) /\
  exists rest,
    events (control i) w =
      EvAudioRequest SOURCE_RTX SINK_SPK PRIO_RX (in_rxReq i) :: rest /\
    forallb (fun e => negb (is_path_command e)) rest = true.
Proof.
  intros Hwf Hrx Hsq Hp1 Hopen. cbv zeta.
  pose proof (control_events i w) as Ev. cbv zeta in Ev. rewrite Ev. clear Ev.
  rewrite control_exec. destruct_world w. destruct_inputs i.
  unfold audio_consistent in Hwf. cbn in Hwf, Hrx, Hsq, Hp1, Hopen. subst.
  cbn in Hwf. subst a.
  unfold exec, events. rewrite rxLogic_run. cbn. rewrite Hopen. cbn.
  rewrite txEnter_run. cbn. rewrite txExit_run. cbn. decide_status.
  rewrite andb_false_r. cbn. rewrite ledLogic_run. cbn.
  repeat split. eexists. split; [reflexivity|].
  repeat split_if; reflexivity.
Qed.

(** X9. In an RX cycle with push-to-talk not asserted, the squelch
    decision open and the squelch-open flag clear, the first command is
    the request for the RX audio route and no other audio or RF command
    follows.  The answer is stored as the RX handle.  A positive answer
    sets the squelch-open flag and the route is held under that handle;
    any other answer leaves the flag clear and nothing held, so that the
    next cycle with an open decision issues the request again. *)
Theorem X9_rx_request_granted_or_repeated (i j : Inputs) (w : World) :
  audio_consistent w -> opStatus (status w) = RX ->
  rxSquelchOpen w = false ->
  in_pttEnter i = false -> in_pttEnter j = false ->
  (if rxToneEn (status w) then in_digSql i
   else rfSqlOpen (self (exec (update i) w))) = true ->
  let w' := exec (update i) w in
  (if rxToneEn (status w) then in_digSql j
   else rfSqlOpen (self (exec (update j) w'))) = true ->
  opStatus (status w') = RX /\
  rxAudioPath (self w') = in_rxReq i /\
  (exists rest,
     events (update i) w =
       EvAudioRequest SOURCE_RTX SINK_SPK PRIO_RX (in_rxReq i) :: rest /\
     forallb (fun e => negb (is_path_command e)) rest = true) /\
  (0 < in_rxReq i ->
   rxSquelchOpen w' = true /\ audio w' = [(in_rxReq i, rxRoute)]) /\
  (in_rxReq i <= 0 ->
   rxSquelchOpen w' = false /\ audio w' = [] /\
   exists rest,
     events (update j) w' =
       EvAudioRequest SOURCE_RTX SINK_SPK PRIO_RX (in_rxReq j) :: rest).
Proof.
  unfold rxSquelchOpen. intros Hwf Hrx Hsq Hpi Hpj Hopi Hopj.
  assert (Hdec : forall k v,
    opStatus (status v) = RX ->
    (if rxToneEn (status v) then in_digSql k
     else rfSqlOpen (self (exec (update k) v))) =
    squelchDecision (rxToneEn (status v)) (in_digSql k)
      (rfSquelch (squelch_threshold (sqlLevel (status v))) (in_rssi k)
                 (rfSqlOpen (self v)))).
  { intros k v Hv. rewrite update_rfSqlOpen, Hv. reflexivity. }
  rewrite (Hdec i w Hrx) in Hopi.
  set (w' := exec (update i) w) in *.
  destruct (update_control_view i w) as [[_ Hsq' _ Hrxp _ Hop _ _ _ Ha] Hev].
  destruct (control_rx_request i w Hwf Hrx Hsq Hpi Hopi)
    as (H1 & H2 & H3 & H4 & H5).
  fold w' in Hsq', Hrxp, Hop, Ha.
  assert (Hrx' : opStatus (status w') = RX) by congruence.
  split; [exact Hrx'|]. split; [congruence|].
  split; [rewrite Hev; exact H5|]. split.
  - intros Hpos. apply Z.ltb_lt in Hpos. rewrite Hpos in H3, H4.
    split; congruence.
  - intros Hneg. assert (E : (0 <? in_rxReq i) = false)
      by (apply Z.ltb_ge; exact Hneg).
    rewrite E in H3, H4.
    assert (Hsqw' : sqlOpen (self w') = false) by congruence.
    split; [exact Hsqw'|]. split; [congruence|].
    assert (Hwf' : audio_consistent w') by apply update_audio_consistent, Hwf.
    destruct (update_config i w) as (Hl & Ht & _). fold w' in Hl, Ht.
    rewrite <- Ht in Hopj. rewrite (Hdec j w' Hrx') in Hopj.
    destruct (update_control_view j w') as [_ Hevj].
    destruct (control_rx_request j w' Hwf' Hrx' Hsqw' Hpj Hopj)
      as (_ & _ & _ & _ & rest & Hrest & _).
    exists rest. rewrite Hevj. exact Hrest.
Qed.

Lemma X9_rx_request_granted_or_repeated_witness :
  rxSquelchOpen (exec (update refused) world_rx) = false /\
  exists rest,
    events (update loud) (exec (update refused) world_rx) =
      EvAudioRequest SOURCE_RTX SINK_SPK PRIO_RX (in_rxReq loud) :: rest.
Proof.
  destruct (X9_rx_request_granted_or_repeated refused loud world_rx)
    as (_ & _ & _ & _ & H).
  - vm_compute. reflexivity.
  - vm_compute. reflexivity.
  - vm_compute. reflexivity.
  - reflexivity.
  - reflexivity.
  - vm_compute. reflexivity.
  - vm_compute. reflexivity.
  - destruct H as (H1 & _ & H3); [vm_compute; discriminate|].
    split; assumption.
Defined.

Lemma audio_consistent_at_most_one w :
  audio_consistent w -> (length (audio w) <= 1)%nat.
Proof.
  unfold audio_consistent. destruct (opStatus (status w)).
  - intros [-> _]. simpl. lia.
  - intros ->. destruct (sqlOpen (self w)); simpl; lia.
  - intros [-> | ->]; simpl; lia.
Qed.

(** X10. From the moment the controller is enabled on an idle radio
    with nothing held at the arbiter, and along every run of cycles
    whatever the inputs and the configuration, the controller holds at
    most one audio path at a time. *)
Theorem X10_at_most_one_audio_path (cycles : list Inputs) (w : World) :
  opStatus (status w) = OFF -> audio w = [] ->
  (length (audio (run cycles (enable w))) <= 1)%nat.
Proof.
  intros Hst Ha.
  apply audio_consistent_at_most_one, run_audio_consistent,
    enable_audio_consistent; assumption.
Qed.

Lemma X10_at_most_one_audio_path_witness :
  (length (audio (run [quiet; loud; talk; quiet; loud]
     (enable (mkWorld (construct false 0%Z 0%Z) status0 ∅ [])))) <= 1)%nat.
Proof.
  apply (X10_at_most_one_audio_path [quiet; loud; talk; quiet; loud]
           (mkWorld (construct false 0 0) status0 ∅ [])); reflexivity.
Defined.

Lemma control_double_release i w :
  opStatus (status w) = RX -> sqlOpen (self w) = true ->
  squelchDecision (rxToneEn (status w)) (in_digSql i)
    (rfSquelch (squelch_threshold (sqlLevel (status w))) (in_rssi i)
               (rfSqlOpen (self w))) = false ->
  in_pttEnter i = true -> txDisable (status w) = false ->
  exists rest,
    events (control i) w =
      EvAudioRelease (rxAudioPath (self w)) ::
      EvAudioRelease (rxAudioPath (self w)) ::
      EvRadioDisableRtx ::
      EvAudioRequest SOURCE_MIC SINK_RTX PRIO_TX (in_txReq i) ::
      EvRadioEnableTx :: rest.
Proof.
  intros Hrx Hsq Hopen Hp1 Htxd.
  pose proof (control_events i w) as Ev. cbv zeta in Ev. rewrite Ev. clear Ev.
  destruct_world w. destruct_inputs i.
  cbn in Hrx, Hsq, Hopen, Hp1, Htxd. subst.
  unfold exec, events. rewrite rxLogic_run. cbn. rewrite Hopen. cbn.
  rewrite txEnter_run. cbn. decide_status. cbn.
  eexists. reflexivity.
Qed.

(** X11. The Enter-TX transition releases the stored RX handle without
    looking at the squelch-open flag.  When the squelch closes in the
    cycle in which push-to-talk is asserted, the RX logic has already
    released that handle, and the cycle releases it a second time before
    it requests the TX path. *)
Theorem X11_rx_handle_released_twice (i : Inputs) (w : World) :
  opStatus (status w) = RX -> rxSquelchOpen w = true ->
  (if rxToneEn (status w) then in_digSql i
   else rfSqlOpen (self (exec (update i) w))) = false ->
  in_pttEnter i = true -> txDisable (status w) = false ->
  exists rest,
    events (update i) w =
      EvAudioRelease (rxAudioPath (self w)) ::
      EvAudioRelease (rxAudioPath (self w)) ::
      EvRadioDisableRtx ::
      EvAudioRequest SOURCE_MIC SINK_RTX PRIO_TX (in_txReq i) ::
      EvRadioEnableTx :: rest.
Proof.
  unfold rxSquelchOpen. intros Hrx Hsq Hopen Hp1 Htxd.
  rewrite update_rfSqlOpen, Hrx in Hopen.
  destruct (update_control_view i w) as [_ ->].
  apply control_double_release; assumption.
Qed.

Lemma X11_rx_handle_released_twice_witness :
  exists rest,
    events (update (with_ptt true quiet)) world_open =
      EvAudioRelease 1 :: EvAudioRelease 1 :: EvRadioDisableRtx ::
      EvAudioRequest SOURCE_MIC SINK_RTX PRIO_TX 2 ::
      EvRadioEnableTx :: rest.
Proof.
  apply (X11_rx_handle_released_twice (with_ptt true quiet) world_open);
    vm_compute; reflexivity.
Defined.

Lemma control_rx_steady i w :
  opStatus (status w) = RX -> in_pttEnter i = false ->
  squelchDecision (rxToneEn (status w)) (in_digSql i)
    (rfSquelch (squelch_threshold (sqlLevel (status w))) (in_rssi i)
               (rfSqlOpen (self w))) = sqlOpen (self w) ->
  let w' := exec (control i) w in
  forallb (fun e => negb (is_path_command e)) (events (control i) w) = true /\
  opStatus (status w') = RX /\ sqlOpen (self w') = sqlOpen (self w) /\
  rxAudioPath (self w') = rxAudioPath (self w) /\
  audio w' = audio w.
Proof.
  intros Hrx Hp1 Hopen. cbv zeta.
  pose proof (control_events i w) as Ev. cbv zeta in Ev. rewrite Ev. clear Ev.
  rewrite control_exec. destruct_world w. destruct_inputs i.
  cbn in Hrx, Hp1, Hopen. subst st p1.
  unfold exec, events. rewrite rxLogic_run. cbn. rewrite Hopen.
  destruct sq; cbn; rewrite txEnter_run; cbn; rewrite txExit_run; cbn;
    decide_status; rewrite andb_false_r; cbn; rewrite ledLogic_run; cbn;
    repeat split; repeat split_if; reflexivity.
Qed.

(** X12. No chatter: in an RX cycle with push-to-talk not asserted in
    which the squelch decision equals the squelch-open flag (open and
    already open, or closed and already closed), the controller sends no
    audio or RF command at all; the state, the flag, the RX handle and
    the audio table are unchanged. *)
Theorem X12_rx_steady_cycle_sends_no_path_command (i : Inputs) (w : World) :
  opStatus (status w) = RX -> in_pttEnter i = false ->
  (if rxToneEn (status w) then in_digSql i
   else rfSqlOpen (self (exec (update i) w))) = rxSquelchOpen w ->
  let w' := exec (update i) w in
  forallb (fun e => negb (is_path_command e)) (events (update i) w) = true /\
  opStatus (status w') = RX /\ rxSquelchOpen w' = rxSquelchOpen w /\
  rxAudioPath (self w') = rxAudioPath (self w) /\
  audio w' = audio w.
Proof.
  unfold rxSquelchOpen. intros Hrx Hp1 Hopen.
  rewrite update_rfSqlOpen, Hrx in Hopen. cbv zeta.
  destruct (update_control_view i w) as [[_ -> _ -> _ -> _ _ _ ->] ->].
  apply control_rx_steady; assumption.
Qed.

Lemma X12_rx_steady_cycle_sends_no_path_command_witness :
  forallb (fun e => negb (is_path_command e))
    (events (update loud) world_open) = true /\
  audio (exec (update loud) world_open) = audio world_open.
Proof.
  destruct (X12_rx_steady_cycle_sends_no_path_command loud world_open)
    as (H1 & _ & _ & _ & H5).
  - vm_compute. reflexivity.
  - reflexivity.
  - vm_compute. reflexivity.
  - split; assumption.
Defined.

Lemma control_enter_rx_events i w :
  opStatus (status w) = OFF -> enterRx (self w) = true -> ptt_idle i ->
  let w' := exec (control i) w in
  events (control i) w =
    [EvRadioDisableRtx; EvRadioEnableRx] ++
    ledEvents RX (in_digSqlLed i) (rfSqlOpen (self w)) ++ [EvSleep 0 30] /\
  enterRx (self w') = false /\
  rfSqlOpen (self w') = rfSqlOpen (self w) /\
  sqlOpen (self w') = sqlOpen (self w) /\
  audio w' = audio w.
Proof.
  intros Hst Hen [Hp1 Hp2]. cbv zeta.
  pose proof (control_events i w) as Ev. cbv zeta in Ev. rewrite Ev. clear Ev.
  rewrite control_exec. destruct_world w. destruct_inputs i.
  cbn in Hst, Hen, Hp1, Hp2. subst.
  run_phases; repeat split.
Qed.

(** X13. Entering RX: in a cycle that starts in OFF with the enter-RX
    flag set and push-to-talk released, the controller switches the RF
    path off and then to receive, shows the RX indication and sleeps.
    The squelch is not evaluated in that cycle: no audio path is
    requested, both squelch flags and the audio table keep their values,
    and the enter-RX flag is cleared. *)
Theorem X13_enter_rx (i : Inputs) (w : World) :
  opStatus (status w) = OFF -> enterRx (self w) = true -> ptt_idle i ->
  let w' := exec (update i) w in
  events (update i) w =
    [EvRadioDisableRtx; EvRadioEnableRx] ++
    ledEvents RX (in_digSqlLed i) (rfSqlOpen (self w)) ++ [EvSleep 0 30] /\
  opStatus (status w') = RX /\ enterRx (self w') = false /\
  rfSqlOpen (self w') = rfSqlOpen (self w) /\
  rxSquelchOpen w' = rxSquelchOpen w /\
  audio w' = audio w.
Proof.
  unfold rxSquelchOpen. intros Hst Hen Hi. cbv zeta.
  destruct (update_control_view i w) as [[-> -> -> _ _ -> _ _ _ ->] ->].
  destruct (control_enter_rx_events i w Hst Hen Hi) as (H1 & H2 & H3 & H4 & H5).
  pose proof (control_enter_rx i w Hst Hen Hi) as H6.
  repeat split; assumption.
Qed.

Lemma X13_enter_rx_witness :
  events (update loud) world0 =
    [EvRadioDisableRtx; EvRadioEnableRx;
     EvLedOff GREEN; EvLedOff RED; EvSleep 0 30] /\
  rxSquelchOpen (exec (update loud) world0) = false.
Proof.
  destruct (X13_enter_rx loud world0) as (H1 & _ & _ & _ & H5 & _).
  - reflexivity.
  - reflexivity.
  - split; reflexivity.
  - split; [exact H1 | exact H5].
Defined.

(** ** Teardown with an empty queue *)

(** X14. With an empty packet queue and a state in which the arbiter's
    table agrees with the controller, [disable] completes.  It switches
    both LEDs off, releases the stored RX handle and the stored TX handle
    whether or not they are held, and switches the RF path off, in this
    order.  Afterwards no audio path is held and the three flags are
    clear; the stored handles, the heap and the shared status record,
    its operating state included, are as before. *)
Theorem X14_disable_with_empty_queue (w : World) :
  aprsPkts (status w) = None -> audio_consistent w ->
  exists w',
    disable w =
      inr (w', [EvLedOff GREEN; EvLedOff RED;
                EvAudioRelease (rxAudioPath (self w));
                EvAudioRelease (txAudioPath (self w)); EvRadioDisableRtx]) /\
    audio w' = [] /\
    rfSqlOpen (self w') = false /\ rxSquelchOpen w' = false /\
    enterRx (self w') = false /\
    rxAudioPath (self w') = rxAudioPath (self w) /\
    txAudioPath (self w') = txAudioPath (self w) /\
    makePkts (self w') = makePkts (self w) /\
    heap w' = heap w /\ status w' = status w.
Proof.
  intros Hhead Hwf. unfold disable. rewrite freeLoop_outcome, Hhead.
  eexists. split; [reflexivity|].
  split; [|repeat split].
  destruct_world w. unfold audio_consistent in Hwf. cbn in Hwf.
  unfold exec, shutdown. cmd_unfold. cbn.
  destruct st; [destruct Hwf as [-> _] | destruct sq; subst a
               | destruct Hwf as [-> | ->]];
    repeat (cbn; case_decide); cbn; first [reflexivity | congruence].
Qed.

Lemma X14_disable_with_empty_queue_witness :
  exists w',
    disable world0 =
      inr (w', [EvLedOff GREEN; EvLedOff RED; EvAudioRelease 0;
                EvAudioRelease 0; EvRadioDisableRtx]) /\
    audio w' = [].
Proof.
  destruct (X14_disable_with_empty_queue world0) as (w' & H1 & H2 & _).
  - reflexivity.
  - split; reflexivity.
  - exists w'. split; assumption.
Defined.

(** ** The test packets *)

(** X15. None of the texts of the batch is truncated: for each of the
    ten loop indices the destination address is ["APRS"] followed by the
    index and fits the 6-byte limit, the payload is [":Test packet "]
    followed by the index and fits the 16-byte buffer; the source
    address is ["N2BP"] with SSID 7; and the ten destination addresses
    are pairwise different. *)
Theorem X15_test_packet_texts (i : Inputs) (k k' : nat) :
  (k < 10)%nat -> (k' < 10)%nat ->
  addresses (testPacket i k) =
    [mkAddress ("APRS" +:+ decimal k) 0; mkAddress "N2BP" 7] /\
  info (testPacket i k) = ":Test packet " +:+ decimal k /\
  (String.length ("APRS" +:+ decimal k) < 6)%nat /\
  (String.length (":Test packet " +:+ decimal k) < 16)%nat /\
  (addresses (testPacket i k) = addresses (testPacket i k') -> k = k').
Proof.
  intros Hk Hk'.
  do 10 (destruct k as [|k];
    [repeat split; try (vm_compute; lia);
     do 10 (destruct k' as [|k'];
       [first [reflexivity | intros H; vm_compute in H; discriminate]|]);
     lia|]).
  lia.
Qed.

Lemma X15_test_packet_texts_witness :
  addresses (testPacket quiet 7) =
    [mkAddress "APRS7" 0; mkAddress "N2BP" 7] /\
  info (testPacket quiet 7) = ":Test packet 7".
Proof.
  destruct (X15_test_packet_texts quiet 7 3) as (H1 & H2 & _); [lia|lia|].
  split; [exact H1 | exact H2].
Defined.

Lemma enable_update_batch i w :
  let w1 := exec (update i) (enable w) in
  size (heap w1) = (size (heap w) + 10)%nat /\
  aprsRecv (status w1) = 10 /\ aprsSaved (status w1) = 10 /\
  makePkts (self w1) = false.
Proof.
  cbv zeta. rewrite update_exec.
  destruct (control_frame i (exec (makeTestPkts i) (enable w)))
    as (-> & _ & -> & -> & ->).
  rewrite makeTestPkts_makePkts, makeTestPkts_exec.
  change (makePkts (self (enable w))) with true. cbv iota.
  destruct (batch_counters i (enable w)) as [-> ->].
  repeat split.
  rewrite <- (map_size_fmap content (heap (exec (batch i) (enable w)))).
  rewrite batch_content, alloc_all_size, map_size_fmap. reflexivity.
Qed.

(** X16. Every enable period adds ten packets, and the counters do not
    follow: after a first period of any length and the first cycle of a
    second period the heap holds twenty packets more than at the start,
    while [aprsRecv] and [aprsSaved] have been overwritten with 10. *)
Theorem X16_second_enable_adds_ten_more
    (w : World) (i1 : Inputs) (later : list Inputs) (i2 : Inputs) :
  let w1 := run later (exec (update i1) (enable w)) in
  let w2 := exec (update i2) (enable w1) in
  size (heap w2) = (size (heap w) + 20)%nat /\
  aprsRecv (status w2) = 10 /\ aprsSaved (status w2) = 10.
Proof.
  cbv zeta.
  destruct (enable_update_batch i1 w) as (H1 & _ & _ & Hmk).
  destruct (run_no_batch later _ Hmk) as [Hh _].
  destruct (enable_update_batch i2
              (run later (exec (update i1) (enable w)))) as (H2 & H3 & H4 & _).
  rewrite H2, Hh, H1. repeat split; [lia|assumption|assumption].
Qed.

(** X17. [update] never writes the configuration: squelch level, tone
    squelch switch and transmit guard are the same after every cycle.
    It always leaves the one-shot packet flag clear, and a cycle that
    starts with the flag clear leaves the heap, the queue head and both
    packet counters as they are. *)
Theorem X17_update_frame (i : Inputs) (w : World) :
  let w' := exec (update i) w in
  sqlLevel (status w') = sqlLevel (status w) /\
  rxToneEn (status w') = rxToneEn (status w) /\
  txDisable (status w') = txDisable (status w) /\
  makePkts (self w') = false /\
  (makePkts (self w) = false ->
   heap w' = heap w /\ aprsPkts (status w') = aprsPkts (status w) /\
   aprsRecv (status w') = aprsRecv (status w) /\
   aprsSaved (status w') = aprsSaved (status w)).
Proof.
  cbv zeta. destruct (update_config i w) as (H1 & H2 & H3).
  split; [exact H1|]. split; [exact H2|]. split; [exact H3|].
  rewrite update_exec.
  destruct (control_frame i (exec (makeTestPkts i) w))
    as (-> & -> & -> & -> & ->).
  split; [apply makeTestPkts_makePkts|].
  intros Hmk. rewrite makeTestPkts_exec, Hmk. repeat split.
Qed.

Lemma X17_update_frame_witness :
  heap (exec (update loud) world_rx) = heap world_rx /\
  aprsPkts (status (exec (update loud) world_rx)) = aprsPkts (status world_rx).
Proof.
  destruct (X17_update_frame loud world_rx) as (_ & _ & _ & _ & H).
  destruct H as (H1 & H2 & _); [vm_compute; reflexivity|].
  split; assumption.
Defined.

(** ** The volume helper *)

(** X18. Whatever the knob readings within the range of a [uint8_t] and
    whatever the static variable holds, every gain command of
    [_setVolume] carries the same value for both gains, and that value
    fits the 4-bit gain field of the baseband chip. *)
Theorem X18_volume_gain_is_four_bit (readings : list Z) (oldVolume : Z) :
  Forall (fun v => 0 <= v <= 255) readings ->
  Forall (fun c => match c with
                   | SetRxAudioGain a d => a = d /\ 0 <= a <= 15
                   end)
         (snd (setVolume_calls readings oldVolume)).
Proof.
  intros Hall. revert oldVolume.
  induction Hall as [|v rest Hv _ IH]; intros oldVolume; simpl.
  - constructor.
  - unfold _setVolume.
    destruct (v =? oldVolume);
      [specialize (IH oldVolume) | specialize (IH v)];
      destruct (setVolume_calls rest _) as [old2 cmds2]; simpl in *.
    + exact IH.
    + constructor; [|exact IH]. split; [reflexivity|].
      rewrite Z.quot_div_nonneg by lia.
      split; [apply Z.div_pos; lia|].
      assert (v / 16 <= 255 / 16) by (apply Z.div_le_mono; lia).
      change (255 / 16) with 15 in *. lia.
Qed.

Lemma X18_volume_gain_is_four_bit_witness :
  Forall (fun c => match c with
                   | SetRxAudioGain a d => a = d /\ 0 <= a <= 15
                   end)
         (snd (setVolume_calls [0; 128; 128; 255] oldVolume0)).
Proof.
  apply (X18_volume_gain_is_four_bit [0; 128; 128; 255] oldVolume0).
  repeat constructor; lia.
Defined.

Lemma setVolume_calls_steady v n old :
  setVolume_calls (repeat v n) v = (v, []) /\
  fst (setVolume_calls (repeat v (S n)) old) = v.
Proof.
  assert (H : forall m, setVolume_calls (repeat v m) v = (v, [])).
  { induction m as [|m IH]; simpl; [reflexivity|].
    unfold _setVolume. rewrite Z.eqb_refl, IH. reflexivity. }
  split; [apply H|]. simpl. unfold _setVolume.
  destruct (v =? old) eqn:E.
  - apply Z.eqb_eq in E. subst old. rewrite H. reflexivity.
  - rewrite H. reflexivity.
Qed.

(** X19. With a knob that is not moved, [_setVolume] programs the gain
    once, at the first call, and never again, except when the knob
    stands at 255: the static variable starts at 0xFF, that position
    counts as unchanged, and the gain is never programmed. *)
Theorem X19_steady_volume_programs_gain_once (v : Z) (n : nat) :
  snd (setVolume_calls (repeat v (S n)) oldVolume0) =
  if v =? 255 then []
  else [SetRxAudioGain (Z.quot v 16) (Z.quot v 16)].
Proof.
  simpl. unfold _setVolume, oldVolume0.
  destruct (v =? 255) eqn:E.
  - apply Z.eqb_eq in E. subst v.
    destruct (setVolume_calls_steady 255 n 255) as [-> _]. reflexivity.
  - destruct (setVolume_calls_steady v n v) as [-> _]. reflexivity.
Qed.
